(** * snqueue: the virtual-queue correlation engine

    A shallow embedding of [snqueue/service/client.py], of
    [snqueue/boto3_clients/sqs_client.py], of the first interface in
    [snqueue/snqueue.py] and of [decrypt_s3_email] in
    [snqueue/utils/email.py], with the properties of the request/response
    correlation layer stated over it.

    Layout:
    - [Py]       Python values, exceptions, dictionaries;
    - [Json]     the part of [json.loads] the default matcher relies on;
    - [Matcher]  [default_match_fn];
    - [Sqs]      [SqsReceiveMessageArgs], [SqsClient.pull_messages] and
                 [SqsClient.delete_messages];
    - [Client]   [SqsVirtualQueueClient]: the three pools, the methods and
                 the transport they call, which may raise;
    - [Loop]     the cooperative interleaving of [request] calls;
    - [Registry] the [ResourceSingleton] metaclass;
    - [Agent]    [SqsAgent] and [SnQueue.retrieve];
    - [Email]    [decrypt_s3_email];
    - [Scenario] concrete messages, instances and runs.

    The properties follow the definitions. *)

From Stdlib Require Import ZArith Ascii String List Lia.
From stdpp Require Import gmap strings list.

Open Scope string_scope.
Set Warnings "-register-all".

(* ===================================================================== *)
(** ** Python values and exceptions *)
(* ===================================================================== *)

Module Py.

(** The exceptions that the modelled code can raise. *)
Inductive Exn :=
  | TypeError
  | AttributeError
  | KeyError
  | JSONDecodeError
  | ValidationError
  | TimeoutError
  | OtherError (name : string).

(** Outcome of a call: a value or a raised exception. *)
Inductive Result (A : Type) :=
  | Ok (a : A)
  | Raise (e : Exn).
Arguments Ok {A} a.
Arguments Raise {A} e.

Definition rbind {A B} (r : Result A) (k : A → Result B) : Result B :=
  match r with
  | Ok a => k a
  | Raise e => Raise e
  end.

Definition raises {A} (r : Result A) : bool :=
  match r with Ok _ => false | Raise _ => true end.

Declare Scope result_scope.
Notation "x <- e ;; k" := (rbind e (λ x, k))
  (at level 100, e at next level, k at level 200, right associativity,
   format "'[v' x  <-  e  ;;  '/' k ']'") : result_scope.
Delimit Scope result_scope with result.

(** The values that [json.loads] produces, which are also the values a raw
    SQS message (a [dict]) holds.  A [str] is kept as its UTF-8 bytes.  A
    [float] is kept as the decimal [mant * 10 ^ exp] it was written as; of
    its rounding to a double only what [truthy] needs is modelled. *)
Inductive PyVal :=
  | PNone
  | PBool (b : bool)
  | PInt (n : Z)
  | PFloat (mant exp : Z)
  | PNaN
  | PInf (negative : bool)
  | PStr (s : string)
  | PList (l : list PyVal)
  | PDict (d : list (string * PyVal)).

(** A [dict] with [str] keys, in insertion order. *)
Abbreviation PyDict := (list (string * PyVal)).

(** [d.get(key)] without a default: [None] of [option] when absent. *)
Fixpoint dict_lookup (key : string) (d : PyDict) : option PyVal :=
  match d with
  | [] => None
  | (k, v) :: d' => if String.eqb k key then Some v else dict_lookup key d'
  end.

(** [d[key] = v]: an existing key keeps its position. *)
Fixpoint dict_set (key : string) (v : PyVal) (d : PyDict) : PyDict :=
  match d with
  | [] => [(key, v)]
  | (k, w) :: d' =>
      if String.eqb k key then (k, v) :: d' else (k, w) :: dict_set key v d'
  end.

(** [x.get(key, default)] on an arbitrary value: only a [dict] has the
    method, everything else raises [AttributeError]. *)
Definition py_get (x : PyVal) (key : string) (default : PyVal) : Result PyVal :=
  match x with
  | PDict d => Ok (match dict_lookup key d with Some v => v | None => default end)
  | _ => Raise AttributeError
  end.

(** A decimal that the conversion to a double rounds to zero: it is zero,
    or at most half of the smallest positive double, [2 ^ -1074] (the tie
    goes to the even neighbour, which is zero). *)
Definition rounds_to_zero (mant exp : Z) : bool :=
  ((mant =? 0) || ((exp <? 0) && (Z.abs mant * 2 ^ 1075 <=? 10 ^ (- exp))))%Z.

(** Truth value testing, as in [if not x]. *)
Definition truthy (x : PyVal) : bool :=
  match x with
  | PNone => false
  | PBool b => b
  | PInt n => negb (n =? 0)%Z
  | PFloat m e => negb (rounds_to_zero m e)
  | PNaN => true
  | PInf _ => true
  | PStr s => negb (String.eqb s EmptyString)
  | PList l => match l with [] => false | _ => true end
  | PDict d => match d with [] => false | _ => true end
  end.

(** [s == x] for a [str] [s]: true exactly for an equal [str]. *)
Definition str_eq (s : string) (x : PyVal) : bool :=
  match x with
  | PStr t => String.eqb s t
  | _ => false
  end.

End Py.

(* ===================================================================== *)
(** ** [json.loads] *)
(* ===================================================================== *)

(** The decoder of the [json] module, as far as [default_match_fn] needs
    it: the grammar that [json.loads] accepts with its default arguments
    (objects, arrays, strings with escapes, numbers, [true], [false],
    [null], [NaN], [Infinity], [-Infinity]).  The interpreter's limits
    (recursion depth, digits of an [int]) are not modelled. *)
Module Json.
Import Py.

Definition is_ws (c : ascii) : bool :=
  match c with
  | " "%char | "009"%char | "010"%char | "013"%char => true
  | _ => false
  end.

Fixpoint skip_ws (s : string) : string :=
  match s with
  | String c rest => if is_ws c then skip_ws rest else s
  | EmptyString => s
  end.

(** [s.startswith(p)], returning what follows the prefix. *)
Fixpoint strip_prefix (p s : string) : option string :=
  match p, s with
  | EmptyString, _ => Some s
  | String a p', String b s' => if Ascii.eqb a b then strip_prefix p' s' else None
  | String _ _, EmptyString => None
  end.

Definition digit_val (c : ascii) : option Z :=
  let n := Z.of_N (N_of_ascii c) in
  if ((48 <=? n) && (n <=? 57))%Z then Some (n - 48)%Z else None.

Definition hex_val (c : ascii) : option Z :=
  let n := Z.of_N (N_of_ascii c) in
  if ((48 <=? n) && (n <=? 57))%Z then Some (n - 48)%Z
  else if ((65 <=? n) && (n <=? 70))%Z then Some (n - 55)%Z
  else if ((97 <=? n) && (n <=? 102))%Z then Some (n - 87)%Z
  else None.

(** Four hexadecimal digits of a [\uXXXX] escape. *)
Definition hex4 (s : string) : option (Z * string) :=
  match s with
  | String a (String b (String c (String d rest))) =>
      match hex_val a, hex_val b, hex_val c, hex_val d with
      | Some x, Some y, Some z, Some w =>
          Some (((x * 16 + y) * 16 + z) * 16 + w, rest)%Z
      | _, _, _, _ => None
      end
  | _ => None
  end.

Definition byte (n : Z) : ascii := ascii_of_N (Z.to_N n).
Definition bytes (ns : list Z) : string :=
  foldr (λ n s, String (byte n) s) EmptyString ns.

(** The double quote, and JSON text written with an apostrophe wherever
    the text has a double quote. *)
Definition quote : ascii := byte 34.
Fixpoint json (s : string) : string :=
  match s with
  | String c rest => String (if Ascii.eqb c "'" then quote else c) (json rest)
  | EmptyString => EmptyString
  end.

(** UTF-8 bytes of a code point (a lone surrogate is written like any
    other three-byte code point). *)
Definition utf8 (cp : Z) : string :=
  if (cp <? 128)%Z then bytes [cp]
  else if (cp <? 2048)%Z then bytes [192 + cp / 64; 128 + cp mod 64]%Z
  else if (cp <? 65536)%Z then
    bytes [224 + cp / 4096; 128 + (cp / 64) mod 64; 128 + cp mod 64]%Z
  else
    bytes [240 + cp / 262144; 128 + (cp / 4096) mod 64;
           128 + (cp / 64) mod 64; 128 + cp mod 64]%Z.

Definition is_high_surrogate (u : Z) : bool := ((55296 <=? u) && (u <=? 56319))%Z.
Definition is_low_surrogate (u : Z) : bool := ((56320 <=? u) && (u <=? 57343))%Z.
Definition join_surrogates (hi lo : Z) : Z :=
  (65536 + (hi - 55296) * 1024 + (lo - 56320))%Z.

Definition simple_escape (c : ascii) : option ascii :=
  if Ascii.eqb c quote then Some quote else
  match c with
  | "\"%char => Some "\"%char
  | "/"%char => Some "/"%char
  | "b"%char => Some "008"%char
  | "f"%char => Some "012"%char
  | "n"%char => Some "010"%char
  | "r"%char => Some "013"%char
  | "t"%char => Some "009"%char
  | _ => None
  end.

(** [scanstring], entered just after the opening quote; [strict] mode: a
    control character inside the string is an error. *)
Fixpoint scanstring (fuel : nat) (s : string) : option (string * string) :=
  match fuel with
  | O => None
  | S fuel =>
      match s with
      | EmptyString => None
      | String c rest =>
          if Ascii.eqb c quote then Some (EmptyString, rest)
          else if Ascii.eqb c "\" then
            match rest with
            | EmptyString => None
            | String e rest' =>
                if Ascii.eqb e "u" then
                  match hex4 rest' with
                  | None => None
                  | Some (u, after) =>
                      let '(cp, after') :=
                        if is_high_surrogate u then
                          match after with
                          | String "\" (String "u" r) =>
                              match hex4 r with
                              | Some (u2, r2) =>
                                  if is_low_surrogate u2
                                  then (join_surrogates u u2, r2)
                                  else (u, after)
                              | None => (u, after)
                              end
                          | _ => (u, after)
                          end
                        else (u, after) in
                      match scanstring fuel after' with
                      | Some (str, r) => Some (utf8 cp ++ str, r)
                      | None => None
                      end
                  end
                else
                  match simple_escape e with
                  | Some ch =>
                      match scanstring fuel rest' with
                      | Some (str, r) => Some (String ch str, r)
                      | None => None
                      end
                  | None => None
                  end
            end
          else if (N_of_ascii c <? 32)%N then None
          else
            match scanstring fuel rest with
            | Some (str, r) => Some (String c str, r)
            | None => None
            end
      end
  end.

(** A maximal run of decimal digits, most significant first. *)
Fixpoint digits (s : string) : list Z * string :=
  match s with
  | String c rest =>
      match digit_val c with
      | Some d => let '(ds, r) := digits rest in (d :: ds, r)
      | None => ([], s)
      end
  | EmptyString => ([], s)
  end.

Definition decimal (ds : list Z) : Z := fold_left (λ acc d, acc * 10 + d)%Z ds 0%Z.

(** The integer part [0|[1-9]\d*] of the number pattern. *)
Definition int_part (s : string) : option (list Z * string) :=
  match s with
  | String "0" rest => Some ([0%Z], rest)
  | _ => match digits s with
         | ([], _) => None
         | (ds, rest) => Some (ds, rest)
         end
  end.

(** The fraction [(\.\d+)?]: absent when no digit follows the point. *)
Definition frac_part (s : string) : option (list Z) * string :=
  match s with
  | String "." rest =>
      match digits rest with
      | ([], _) => (None, s)
      | (ds, r) => (Some ds, r)
      end
  | _ => (None, s)
  end.

(** The exponent [([eE][-+]?\d+)?]. *)
Definition exp_part (s : string) : option Z * string :=
  match s with
  | String c rest =>
      if Ascii.eqb c "e" || Ascii.eqb c "E" then
        let '(neg, rest') :=
          match rest with
          | String "-" r => (true, r)
          | String "+" r => (false, r)
          | _ => (false, rest)
          end in
        match digits rest' with
        | ([], _) => (None, s)
        | (ds, r) => (Some (if neg then - decimal ds else decimal ds)%Z, r)
        end
      else (None, s)
  | EmptyString => (None, s)
  end.

(** [NUMBER_RE.match]: an [int] without fraction and exponent, a [float]
    otherwise. *)
Definition match_number (s : string) : option (PyVal * string) :=
  let '(neg, s1) :=
    match s with
    | String "-" r => (true, r)
    | _ => (false, s)
    end in
  match int_part s1 with
  | None => None
  | Some (ids, s2) =>
      let '(frac, s3) := frac_part s2 in
      let '(ex, s4) := exp_part s3 in
      let sign (z : Z) := if neg then (- z)%Z else z in
      match frac, ex with
      | None, None => Some (PInt (sign (decimal ids)), s4)
      | _, _ =>
          let fds := match frac with Some f => f | None => [] end in
          let e := match ex with Some e => e | None => 0%Z end in
          Some (PFloat (sign (decimal (ids ++ fds))) (e - Z.of_nat (length fds)), s4)
      end
  end.

(** The constants and numbers of [scan_once]. *)
Definition scan_atom (s : string) : option (PyVal * string) :=
  match strip_prefix "null" s with
  | Some r => Some (PNone, r)
  | None =>
  match strip_prefix "true" s with
  | Some r => Some (PBool true, r)
  | None =>
  match strip_prefix "false" s with
  | Some r => Some (PBool false, r)
  | None =>
  match match_number s with
  | Some res => Some res
  | None =>
  match strip_prefix "NaN" s with
  | Some r => Some (PNaN, r)
  | None =>
  match strip_prefix "Infinity" s with
  | Some r => Some (PInf false, r)
  | None =>
  match strip_prefix "-Infinity" s with
  | Some r => Some (PInf true, r)
  | None => None
  end end end end end end end.

(** [scan_once] with [JSONObject] and [JSONArray].  [JSONObject] is entered
    just after the opening quote of a key, [JSONArray] at the start of an
    element.  Every call consumes input, so [fuel] above the length of the
    input never runs out. *)
Fixpoint scan_once (fuel : nat) (s : string) : option (PyVal * string) :=
  match fuel with
  | O => None
  | S fuel =>
      match s with
      | String "{" rest =>
          match skip_ws rest with
          | String "}" r => Some (PDict [], r)
          | String c r => if Ascii.eqb c quote then JSONObject fuel r [] else None
          | EmptyString => None
          end
      | String "[" rest =>
          match skip_ws rest with
          | String "]" r => Some (PList [], r)
          | r =>
              match JSONArray fuel r with
              | Some (vs, r') => Some (PList vs, r')
              | None => None
              end
          end
      | String c rest =>
          if Ascii.eqb c quote then
            match scanstring (S (String.length rest)) rest with
            | Some (str, r) => Some (PStr str, r)
            | None => None
            end
          else scan_atom s
      | EmptyString => None
      end
  end
with JSONObject (fuel : nat) (s : string) (pairs : PyDict) : option (PyVal * string) :=
  match fuel with
  | O => None
  | S fuel =>
      match scanstring (S (String.length s)) s with
      | None => None
      | Some (key, r) =>
          match skip_ws r with
          | String ":" r1 =>
              match scan_once fuel (skip_ws r1) with
              | None => None
              | Some (v, r2) =>
                  let pairs' := dict_set key v pairs in
                  match skip_ws r2 with
                  | String "}" r3 => Some (PDict pairs', r3)
                  | String "," r3 =>
                      match skip_ws r3 with
                      | String c r4 =>
                          if Ascii.eqb c quote then JSONObject fuel r4 pairs' else None
                      | EmptyString => None
                      end
                  | _ => None
                  end
              end
          | _ => None
          end
      end
  end
with JSONArray (fuel : nat) (s : string) : option (list PyVal * string) :=
  match fuel with
  | O => None
  | S fuel =>
      match scan_once fuel s with
      | None => None
      | Some (v, r) =>
          match skip_ws r with
          | String "]" r1 => Some ([v], r1)
          | String "," r1 =>
              match JSONArray fuel (skip_ws r1) with
              | Some (vs, r2) => Some (v :: vs, r2)
              | None => None
              end
          | _ => None
          end
      end
  end.

(** [JSONDecoder.decode]: one value, surrounded by white space only. *)
Definition decode (s : string) : Result PyVal :=
  match scan_once (S (String.length s)) (skip_ws s) with
  | Some (v, rest) =>
      match skip_ws rest with
      | EmptyString => Ok v
      | _ => Raise JSONDecodeError
      end
  | None => Raise JSONDecodeError
  end.

(** [json.loads(x)]: anything but a [str] is a [TypeError] ([bytes] do not
    occur in a message). *)
Definition loads (x : PyVal) : Result PyVal :=
  match x with
  | PStr s => decode s
  | _ => Raise TypeError
  end.

End Json.

(* ===================================================================== *)
(** ** The default matcher *)
(* ===================================================================== *)

Module Matcher.
Import Py.

(** [MatchFn]: called with a correlation identifier and a raw SQS message.
    The protocol promises a [bool]; a Python callable may still raise. *)
Definition MatchFn := string → PyDict → Result bool.

(** [default_match_fn] of [service/client.py]. *)
Definition default_match_fn : MatchFn := λ message_id raw_sqs_message,
  (body <- Json.loads
             (match dict_lookup "Body" raw_sqs_message with
              | Some b => b
              | None => PDict []
              end) ;;
   attributes <- py_get body "MessageAttributes" (PDict []) ;;
   entry <- py_get attributes "SnQueueResponseMetadata" (PDict []) ;;
   value <- py_get entry "Value" (PStr EmptyString) ;;
   snqueue_response_metadata <- Json.loads value ;;
   if negb (truthy snqueue_response_metadata) then Ok false
   else
     request_id <- py_get snqueue_response_metadata "RequestId" PNone ;;
     Ok (str_eq message_id request_id))%result.

(** A reply as a responding worker sends it through SNS to the queue: the
    body is an envelope whose [SnQueueResponseMetadata] attribute holds, as
    JSON text, an object with the [RequestId]. *)
Definition reply_to_abc123 : PyDict :=
  [("MessageId", PStr "m-1");
   ("ReceiptHandle", PStr "rh-1");
   ("Body", PStr
      (Json.json
         ("{'Type': 'Notification', 'Message': 'done', " ++
          "'MessageAttributes': {'SnQueueResponseMetadata': " ++
          "{'Type': 'String', 'Value': '{\'RequestId\': \'abc123\'}'}}}")))].

End Matcher.

(* ===================================================================== *)
(** ** The SQS client *)
(* ===================================================================== *)

Module Sqs.
Import Py.

(** What a caller passes for a field of a pydantic model: nothing, or a
    value of the annotated type [Optional[int]]. *)
Inductive FieldInput :=
  | Absent
  | Given (v : option Z).

(** [MaxNumberOfMessages: Optional[int] = Field(1, gt=1, le=10)] of
    [SqsReceiveMessageArgs]: an absent field takes the default [1], which
    pydantic does not validate; [None] is admitted by [Optional]; a given
    integer must be greater than [1] and at most [10]. *)
Definition MaxNumberOfMessages (i : FieldInput) : Result (option Z) :=
  match i with
  | Absent => Ok (Some 1%Z)
  | Given None => Ok None
  | Given (Some n) =>
      if ((1 <? n) && (n <=? 10))%Z then Ok (Some n) else Raise ValidationError
  end.

(** [SqsClient.pull_messages], with [receive_message] the operation of the
    boto3 client.  The annotation of [**kwargs] is not enforced when the
    method runs: the arguments go to [receive_message] as they are (a
    second [QueueUrl] among them is the [TypeError] of a repeated keyword). *)
Definition pull_messages (receive_message : PyDict → Result PyDict)
    (sqs_url : string) (kwargs : PyDict) : Result PyVal :=
  match dict_lookup "QueueUrl" kwargs with
  | Some _ => Raise TypeError
  | None =>
      (response <- receive_message (("QueueUrl", PStr sqs_url) :: kwargs) ;;
       Ok (match dict_lookup "Messages" response with
           | Some messages => messages
           | None => PList []
           end))%result
  end.

Local Open Scope list_scope.

(** The response of [delete_message_batch], as far as [delete_messages]
    reads it: the members [Successful] and [Failed], which are lists when
    the response has them. *)
Record BatchResponse := {
  Successful : option (list PyVal);
  Failed : option (list PyVal);
}.

(** The boto3 client seen from one run of [delete_messages]: what it
    answers to its [n]-th call of [delete_message_batch], given the
    entries. *)
Definition BatchClient := nat → list PyDict → Result BatchResponse.

(** One element of the list comprehension that builds a batch:
    [msg['ReceiptHandle']] is a [KeyError] on a message without one. *)
Definition entry (msg : PyDict) : Result PyDict :=
  match dict_lookup "ReceiptHandle" msg with
  | Some handle => Ok [("id", handle); ("ReceiptHandle", handle)]
  | None => Raise KeyError
  end.

(** The list comprehension: the first element that raises ends it. *)
Fixpoint entries (msgs : list PyDict) : Result (list PyDict) :=
  match msgs with
  | [] => Ok []
  | msg :: rest =>
      (e <- entry msg ;;
       es <- entries rest ;;
       Ok (e :: es))%result
  end.

(** [res[key]] for the two members. *)
Definition member (m : option (list PyVal)) : Result (list PyVal) :=
  match m with
  | Some l => Ok l
  | None => Raise KeyError
  end.

(** The [while len(remained) > 0] loop of [delete_messages], before its
    [n]-th call; [sent] are the batches passed to the client so far.  Every
    round shortens [remained], so [fuel] from the length of [remained] on
    never runs out.  The outcome comes with the batches that were sent. *)
Fixpoint delete_loop (fuel : nat) (client : BatchClient) (remained : list PyDict)
    (n : nat) (successful failed : list PyVal) (sent : list (list PyDict))
  : Result (list PyVal * list PyVal) * list (list PyDict) :=
  match remained with
  | [] => (Ok (successful, failed), sent)
  | _ :: _ =>
      match fuel with
      | O => (Ok (successful, failed), sent)
      | S fuel =>
          match entries (take 10 remained) with
          | Raise e => (Raise e, sent)
          | Ok batch =>
              match client n batch with
              | Raise e => (Raise e, sent ++ [batch])
              | Ok res =>
                  match member (Successful res) with
                  | Raise e => (Raise e, sent ++ [batch])
                  | Ok s =>
                      match member (Failed res) with
                      | Raise e => (Raise e, sent ++ [batch])
                      | Ok f =>
                          delete_loop fuel client (drop 10 remained) (S n)
                            (successful ++ s) (failed ++ f) (sent ++ [batch])
                      end
                  end
              end
          end
      end
  end.

(** The lists that the client answered under one member, over the batches
    [sent], in the order of the calls. *)
Definition answered (client : BatchClient)
    (sel : BatchResponse → option (list PyVal)) (sent : list (list PyDict)) : list PyVal :=
  concat (imap (λ i batch,
                  match client i batch with
                  | Ok res => match sel res with Some l => l | None => [] end
                  | Raise _ => []
                  end) sent).

(** The client answers every call, with both members. *)
Definition complete (client : BatchClient) : Prop :=
  ∀ i batch, ∃ s f, client i batch = Ok {| Successful := Some s; Failed := Some f |}.

(** [SqsClient.delete_messages]: the result, as the pair of its
    [Successful] and [Failed] lists, and the batches sent to the client. *)
Definition delete_messages (client : BatchClient) (messages : list PyDict)
  : Result (list PyVal * list PyVal) * list (list PyDict) :=
  delete_loop (length messages) client messages 0 [] [] [].

End Sqs.

(* ===================================================================== *)
(** ** The virtual-queue client *)
(* ===================================================================== *)

Module Client.
Import Py Matcher.

(** A raw message as [pull_messages] hands it over: a [dict] object.  Two
    objects with the same content are still two messages, so an object
    carries its identity [oid], fixed when the response that holds it is
    built. *)
Record Message := { oid : nat; raw : PyDict }.

(** The calls made on an [SqsClient].  The world keeps them in the order
    they are made, each with its outcome: [None] when it returned, the
    exception when it raised. *)
Inductive Call :=
  | delete_messages (sqs_url : string) (messages : list Message)
  | pull_messages (sqs_url : string) (kwargs : PyDict)
  | change_message_visibility_batch
      (sqs_url : string) (messages : list Message) (visibility_timeout : Z).

(** The attributes that [__aenter__] creates. *)
Record Pools := {
  _inqueue_messages : list Message;
  _processed_messages : list Message;
  _waiting_for_polling : gset string;
}.

(** An instance: the attributes of [__init__], and those of [__aenter__]
    once the context has been entered. *)
Record SqsVirtualQueueClient := {
  _sqs_url : string;
  _aws_profile_name : string;
  _sqs_args : PyDict;
  entered : option Pools;
}.

Definition __init__ (sqs_url aws_profile_name : string) (sqs_config : PyDict)
  : SqsVirtualQueueClient :=
  {| _sqs_url := sqs_url; _aws_profile_name := aws_profile_name;
     _sqs_args := sqs_config; entered := None |}.

(** What a method runs in: the instance, the calls made to the transport so
    far (latest last), and the identity of the next message object. *)
Record World := {
  self : SqsVirtualQueueClient;
  calls : list (Call * option Exn);
  next_oid : nat;
}.

(** What the world outside the instance does while one piece of code runs.
    [SqsClient] takes its constructor and its context manager from
    [Boto3BaseClient] and works on a boto3 client; neither is among these
    sources, so what they do is a parameter:
    - [enters]: the exception of [SqsClient(self.aws_profile_name)] or of
      its [__enter__], when one raises;
    - [deletes]: the boto3 client under [SqsClient.delete_messages];
    - [receives]: [receive_message] of the boto3 client, with the member
      [Messages] of its response, a list of dicts when the response has it;
    - [releases]: the exception of [sqs.change_message_visibility_batch],
      which [SqsClient] does not define itself, when it raises;
    - [exits]: the exception of [__exit__], when it raises; [__exit__] is
      taken to let an exception of the block pass, as the one of [AwsAgent]
      in [snqueue.py] does. *)
Record Transport := {
  enters : option Exn;
  deletes : Sqs.BatchClient;
  receives : PyDict → Result (option (list PyDict));
  releases : option Exn;
  exits : option Exn;
}.

(** Methods change the world and return or raise; what was changed before
    an exception stays changed. *)
Definition Eff (A : Type) : Type := World → Result A * World.

Definition ret {A} (a : A) : Eff A := λ w, (Ok a, w).
Definition raise {A} (e : Exn) : Eff A := λ w, (Raise e, w).
Definition lift {A} (r : Result A) : Eff A := λ w, (r, w).
Definition bind {A B} (m : Eff A) (k : A → Eff B) : Eff B := λ w,
  match m w with
  | (Ok a, w') => k a w'
  | (Raise e, w') => (Raise e, w')
  end.

Declare Scope eff_scope.
Delimit Scope eff_scope with eff.
Bind Scope eff_scope with Eff.
Notation "x <- m ;; k" := (bind m (λ x, k))
  (at level 100, m at next level, k at level 200, right associativity) : eff_scope.
Notation "m ;; k" := (bind m (λ _, k))
  (at level 100, k at level 200, right associativity) : eff_scope.

(** *** Attribute access *)

Definition set_entered (p : Pools) (w : World) : World :=
  {| self := {| _sqs_url := _sqs_url (self w);
                _aws_profile_name := _aws_profile_name (self w);
                _sqs_args := _sqs_args (self w);
                entered := Some p |};
     calls := calls w; next_oid := next_oid w |}.

(** Reading a pool of an instance that was never entered raises
    [AttributeError]. *)
Definition attr {A} (field : Pools → A) : Eff A := λ w,
  match entered (self w) with
  | Some p => (Ok (field p), w)
  | None => (Raise AttributeError, w)
  end.

Definition update (f : Pools → Pools) : Eff unit := λ w,
  match entered (self w) with
  | Some p => (Ok (), set_entered (f p) w)
  | None => (Raise AttributeError, w)
  end.

Definition with_inqueue (l : list Message) (p : Pools) : Pools :=
  {| _inqueue_messages := l;
     _processed_messages := _processed_messages p;
     _waiting_for_polling := _waiting_for_polling p |}.
Definition with_processed (l : list Message) (p : Pools) : Pools :=
  {| _inqueue_messages := _inqueue_messages p;
     _processed_messages := l;
     _waiting_for_polling := _waiting_for_polling p |}.
Definition with_waiting (s : gset string) (p : Pools) : Pools :=
  {| _inqueue_messages := _inqueue_messages p;
     _processed_messages := _processed_messages p;
     _waiting_for_polling := s |}.

Definition failure {A} (r : Result A) : option Exn :=
  match r with Ok _ => None | Raise e => Some e end.

(** The world after one more call. *)
Definition record (c : Call) (e : option Exn) (w : World) : World :=
  {| self := self w; calls := calls w ++ [(c, e)]; next_oid := next_oid w |}.

(** A call on the [SqsClient] whose result is not used: it is made, and it
    returns or raises. *)
Definition call (c : Call) (e : option Exn) : Eff unit := λ w,
  (match e with None => Ok () | Some e => Raise e end, record c e w).

(** What [sqs.delete_messages(self.sqs_url, messages)] raises, if it does:
    the method of [SqsClient] runs on the messages. *)
Definition deleting (sqs : Transport) (messages : list Message) : option Exn :=
  failure (Sqs.delete_messages (deletes sqs) (raw <$> messages)).1.

(** [sqs.delete_messages(self.sqs_url, messages)]; its result is not
    used. *)
Definition delete (sqs : Transport) (messages : list Message) : Eff unit := λ w,
  call (delete_messages (_sqs_url (self w)) messages) (deleting sqs messages) w.

(** [sqs.change_message_visibility_batch(self.sqs_url, unmatched, 0)]. *)
Definition release (sqs : Transport) (unmatched : list Message) : Eff unit := λ w,
  call (change_message_visibility_batch (_sqs_url (self w)) unmatched 0)
       (releases sqs) w.

(** The response of [receive_message] as a dict, and the messages in what
    [SqsClient.pull_messages] returns from it. *)
Definition response_of (r : option (list PyDict)) : PyDict :=
  match r with
  | Some messages => [("Messages", PList (PDict <$> messages))]
  | None => []
  end.

Definition messages_of (v : PyVal) : list PyDict :=
  match v with
  | PList l => omap (λ x, match x with PDict d => Some d | _ => None end) l
  | _ => []
  end.

(** The outcome of [sqs.pull_messages(sqs_url, **kwargs)]: a keyword with
    the name of a parameter of the method is a [TypeError] when the call is
    bound; otherwise [SqsClient.pull_messages] runs. *)
Definition pulling (sqs : Transport) (sqs_url : string) (kwargs : PyDict)
  : Result (list PyDict) :=
  match dict_lookup "self" kwargs, dict_lookup "sqs_url" kwargs with
  | None, None =>
      (v <- Sqs.pull_messages
              (λ args, (r <- receives sqs args ;; Ok (response_of r))%result)
              sqs_url kwargs ;;
       Ok (messages_of v))%result
  | _, _ => Raise TypeError
  end.

(** [sqs.pull_messages(self.sqs_url, **self._sqs_args)]: when it returns,
    the messages of the response as new objects, in the order of the
    response. *)
Definition pull (sqs : Transport) : Eff (list Message) := λ w,
  match pulling sqs (_sqs_url (self w)) (_sqs_args (self w)) with
  | Ok response =>
      (Ok (imap (λ i r, {| oid := next_oid w + i; raw := r |}) response),
       {| self := self w;
          calls := calls w
                   ++ [(pull_messages (_sqs_url (self w)) (_sqs_args (self w)), None)];
          next_oid := next_oid w + length response |})
  | Raise e =>
      (Raise e,
       record (pull_messages (_sqs_url (self w)) (_sqs_args (self w))) (Some e) w)
  end.

(** [with SqsClient(self.aws_profile_name) as sqs: body]. *)
Definition with_SqsClient {A} (sqs : Transport) (body : Eff A) : Eff A := λ w,
  match enters sqs with
  | Some e => (Raise e, w)
  | None =>
      let '(r, w') := body w in
      match exits sqs with
      | Some e => (Raise e, w')
      | None => (r, w')
      end
  end.

Definition nonempty {A} (l : list A) : bool :=
  match l with [] => false | _ => true end.

(** A transport on which every call returns; its queue answers a pull with
    [batch] and reports every entry of a deletion as deleted. *)
Definition delivers (batch : list PyDict) : Transport :=
  {| enters := None;
     deletes := λ _ entries,
       Ok {| Sqs.Successful := Some (PDict <$> entries); Sqs.Failed := Some [] |};
     receives := λ _, Ok (Some batch);
     releases := None;
     exits := None |}.

(** *** The methods *)

(** [__aenter__]. *)
Definition __aenter__ : Eff unit := λ w,
  (Ok (), set_entered {| _inqueue_messages := [];
                         _processed_messages := [];
                         _waiting_for_polling := ∅ |} w).

(** The two statements that [__aexit__] and [_poll_messages] run when the
    claimed pool is not empty: the pool is cleared when [delete_messages]
    has returned. *)
Definition delete_processed (sqs : Transport) : Eff unit :=
  (processed <- attr _processed_messages ;;
   delete sqs processed ;;
   update (with_processed []))%eff.

(** The flush of [_poll_messages], inside its [with] block. *)
Definition flush (sqs : Transport) : Eff unit :=
  (processed <- attr _processed_messages ;;
   if nonempty processed then delete_processed sqs else ret ())%eff.

(** [__aexit__]: the [with] block is inside the test. *)
Definition __aexit__ (sqs : Transport) : Eff unit :=
  (processed <- attr _processed_messages ;;
   if nonempty processed then with_SqsClient sqs (delete_processed sqs)
   else ret ())%eff.

(** The inner loop of [_poll_messages] over the identifiers being waited
    for: [true] at the first one that matches. *)
Fixpoint any_match (match_fn : MatchFn) (being_waited : list string)
    (message : Message) : Result bool :=
  match being_waited with
  | [] => Ok false
  | id :: rest =>
      (b <- match_fn id (raw message) ;;
       if b then Ok true else any_match match_fn rest message)%result
  end.

(** The outer loop of [_poll_messages]; [unmatched] is its local list.  The
    set of identifiers is visited in the order of [elements]; the order
    shows only when the matcher raises on some identifier. *)
Fixpoint classify (match_fn : MatchFn) (messages unmatched : list Message)
  : Eff (list Message) :=
  match messages with
  | [] => ret unmatched
  | message :: rest =>
      (waiting <- attr _waiting_for_polling ;;
       matched <- lift (any_match match_fn (elements waiting) message) ;;
       if matched then
         update (λ p, with_inqueue (_inqueue_messages p ++ [message]) p) ;;
         classify match_fn rest unmatched
       else classify match_fn rest (unmatched ++ [message]))%eff
  end.

(** The [with] block of [_poll_messages]. *)
Definition poll_block (match_fn : MatchFn) (sqs : Transport) : Eff unit :=
  (flush sqs ;;
   messages <- pull sqs ;;
   unmatched <- classify match_fn messages [] ;;
   if nonempty unmatched then release sqs unmatched else ret ())%eff.

(** [_poll_messages]; [sqs] is what the transport does if this cycle
    reaches it. *)
Definition _poll_messages (match_fn : MatchFn) (sqs : Transport) : Eff unit :=
  (inqueue <- attr _inqueue_messages ;;
   if nonempty inqueue then ret ()
   else with_SqsClient sqs (poll_block match_fn sqs))%eff.

(** [self._waiting_for_polling.remove(message_id)]: [KeyError] when the
    identifier is not in the set. *)
Definition remove_waiting (message_id : string) : Eff unit :=
  (waiting <- attr _waiting_for_polling ;;
   if decide (message_id ∈ waiting) then
     update (with_waiting (waiting ∖ {[message_id]}))
   else raise KeyError)%eff.

(** The [for i in range(len(queue))] loop of [_get_response], at index [i]
    with [rest] the messages from [queue[i]] on. *)
Fixpoint scan_from (match_fn : MatchFn) (message_id : string)
    (queue rest : list Message) (i : nat) : Eff (option Message) :=
  match rest with
  | [] => ret None
  | message :: rest' =>
      (b <- lift (match_fn message_id (raw message)) ;;
       if b then
         update (with_inqueue (take i queue ++ drop (S i) queue)) ;;
         update (λ p, with_processed (_processed_messages p ++ [message]) p) ;;
         remove_waiting message_id ;;
         ret (Some message)
       else scan_from match_fn message_id queue rest' (S i))%eff
  end.

(** One pass over the pulled messages: the reply, or [None] when the loop
    ends without a match. *)
Definition scan (match_fn : MatchFn) (message_id : string) : Eff (option Message) :=
  (queue <- attr _inqueue_messages ;;
   scan_from match_fn message_id queue queue 0)%eff.

(** [_get_response] runs in pieces, from one suspension point to the next:
    [_get_response_begin] from its start to the first [asyncio.sleep(0)],
    [_get_response_resume] from a resumption to the next one.  Nothing
    inside a piece awaits: [_poll_messages] has no suspension point of its
    own.  A piece ends with the reply, or with [None] at [asyncio.sleep(0)]. *)
Definition _get_response_begin (message_id : string) (match_fn : MatchFn)
  : Eff (option Message) :=
  (update (λ p, with_waiting ({[message_id]} ∪ _waiting_for_polling p) p) ;;
   scan match_fn message_id)%eff.

Definition _get_response_resume (message_id : string) (match_fn : MatchFn)
    (sqs : Transport) : Eff (option Message) :=
  (_poll_messages match_fn sqs ;;
   scan match_fn message_id)%eff.

End Client.

(* ===================================================================== *)
(** ** Concurrent requests on one instance *)
(* ===================================================================== *)

(** The event loop runs one task at a time and changes task only at a
    suspension point.  A [request] call is a task; between two suspension
    points it runs one piece of [_get_response]. *)
Module Loop.
Import Py Matcher Client.

Inductive Status :=
  | Created                     (* published, [_get_response] not yet started *)
  | Suspended                   (* at [await asyncio.sleep(0)] *)
  | Returned (reply : Message)  (* [request] returned the reply *)
  | Raised (e : Exn).           (* [request] raised *)

Record Task := {
  message_id : string;
  match_fn : MatchFn;
  status : Status;
}.

Record System := {
  world : World;
  tasks : list Task;
}.

Inductive Event :=
  (* a caller enters [request]; [sns.publish] answered with [message_id] *)
  | Request (message_id : string) (match_fn : MatchFn)
  (* the loop runs task [t] up to its next suspension point; [sqs] is
     what the transport does if the task polls *)
  | Run (t : nat) (sqs : Transport)
  (* the deadline of [asyncio.wait_for] passes for task [t] *)
  | Timeout (t : nat)
  (* [async with] on the instance: entry, and exit with what the transport
     does if the exit flushes *)
  | Enter
  | Exit (sqs : Transport).

Definition with_status (task : Task) (s : Status) : Task :=
  {| message_id := message_id task; match_fn := match_fn task; status := s |}.

(** How a piece of [_get_response] leaves its task. *)
Definition outcome (r : Result (option Message)) : Status :=
  match r with
  | Ok (Some reply) => Returned reply
  | Ok None => Suspended
  | Raise e => Raised e
  end.

Definition run_piece (piece : Eff (option Message)) (t : nat) (task : Task)
    (s : System) : System :=
  let '(r, w) := piece (world s) in
  {| world := w; tasks := <[t := with_status task (outcome r)]> (tasks s) |}.

(** One event.  An event that cannot happen (a task that does not exist or
    has finished) leaves the system as it is. *)
Definition step (ev : Event) (s : System) : System :=
  match ev with
  | Request id fn =>
      {| world := world s;
         tasks := tasks s ++ [{| message_id := id; match_fn := fn; status := Created |}] |}
  | Run t sqs =>
      match tasks s !! t with
      | Some task =>
          match status task with
          | Created =>
              run_piece (_get_response_begin (message_id task) (match_fn task)) t task s
          | Suspended =>
              run_piece (_get_response_resume (message_id task) (match_fn task) sqs)
                t task s
          | _ => s
          end
      | None => s
      end
  | Timeout t =>
      match tasks s !! t with
      | Some task =>
          match status task with
          | Created | Suspended =>
              {| world := world s;
                 tasks := <[t := with_status task (Raised TimeoutError)]> (tasks s) |}
          | _ => s
          end
      | None => s
      end
  | Enter => {| world := (__aenter__ (world s)).2; tasks := tasks s |}
  | Exit sqs => {| world := (__aexit__ sqs (world s)).2; tasks := tasks s |}
  end.

Definition exec (evs : list Event) (s : System) : System :=
  fold_left (λ s ev, step ev s) evs s.

(** A new process: the instance has just been constructed. *)
Definition boot (sqs_url aws_profile_name : string) (sqs_config : PyDict) : System :=
  {| world := {| self := __init__ sqs_url aws_profile_name sqs_config;
                 calls := []; next_oid := 0 |};
     tasks := [] |}.

(** The three pools of a world; empty before the first [__aenter__]. *)
Definition pulled (w : World) : list Message :=
  match entered (self w) with Some p => _inqueue_messages p | None => [] end.
Definition claimed (w : World) : list Message :=
  match entered (self w) with Some p => _processed_messages p | None => [] end.
Definition waiting (w : World) : gset string :=
  match entered (self w) with Some p => _waiting_for_polling p | None => ∅ end.

(** Every message passed to [delete_messages], in order, whether the call
    returned or raised. *)
Fixpoint deleted (cs : list (Call * option Exn)) : list Message :=
  match cs with
  | [] => []
  | (delete_messages _ messages, _) :: cs' => messages ++ deleted cs'
  | _ :: cs' => deleted cs'
  end.

(** Every message passed to a [delete_messages] that returned. *)
Fixpoint confirmed (cs : list (Call * option Exn)) : list Message :=
  match cs with
  | [] => []
  | (delete_messages _ messages, None) :: cs' => messages ++ confirmed cs'
  | _ :: cs' => confirmed cs'
  end.


(** Every message passed to [change_message_visibility_batch], with the
    timeout it was given. *)
Fixpoint released (cs : list (Call * option Exn)) : list (Message * Z) :=
  match cs with
  | [] => []
  | (change_message_visibility_batch _ messages t, _) :: cs' =>
      ((λ m, (m, t)) <$> messages) ++ released cs'
  | _ :: cs' => released cs'
  end.

(** What the queue hands over if a pull is made in world [w]: the batch,
    or nothing when the pull raises. *)
Definition batch (sqs : Transport) (w : World) : list PyDict :=
  match pulling sqs (_sqs_url (self w)) (_sqs_args (self w)) with
  | Ok response => response
  | Raise _ => []
  end.

(** A message matches some identifier being waited for. *)
Definition says_true (r : Result bool) : bool :=
  match r with Ok true => true | _ => false end.
Definition matches_some (match_fn : MatchFn) (ids : gset string) (m : Message) : bool :=
  existsb (λ id, says_true (match_fn id (raw m))) (elements ids).

(** The objects that a pull makes of a response. *)
Definition fresh (w : World) (response : list PyDict) : list Message :=
  imap (λ i r, {| oid := next_oid w + i; raw := r |}) response.

(** The replies that callers have received. *)
Definition reply_of (task : Task) : option Message :=
  match status task with Returned reply => Some reply | _ => None end.
Definition replies (ts : list Task) : list Message := omap reply_of ts.

(** The bookkeeping of message objects: the pulled pool [pl], the claimed
    pool [cl], what was passed to deletions that returned [dl], the replies
    handed out [rp], and the next identity [n].  Every object is older than [n]; no object is both
    waiting in the pulled pool and in a caller's hands, or twice in either;
    no object is twice among the pulled, the claimed and the deleted. *)
Definition ledger_ok (pl cl dl rp : list Message) (n : nat) : Prop :=
  Forall (λ m, oid m < n) (pl ++ cl ++ dl ++ rp)%list
  ∧ NoDup (oid <$> (pl ++ rp)%list)
  ∧ NoDup (oid <$> (pl ++ cl ++ dl)%list).

(** The reply that a task holds was accepted by its matcher for its
    identifier. *)
Definition accepted (task : Task) : Prop :=
  match status task with
  | Returned reply => match_fn task (message_id task) (raw reply) = Ok true
  | _ => True
  end.

(** A task that never got as far as a suspension point or a reply. *)
Definition unserved (task : Task) : Prop :=
  match status task with
  | Created | Raised AttributeError | Raised TimeoutError => True
  | _ => False
  end.

(** What a flush or an exit can do to the pools and the books: nothing, or
    a deletion that returned, after which the claimed pool is cleared; a
    deletion that raised leaves both as they were. *)
Definition flushed (w w' : World) : Prop :=
  pulled w' = pulled w
  ∧ waiting w' = waiting w
  ∧ next_oid w' = next_oid w
  ∧ released (calls w') = released (calls w)
  ∧ _sqs_url (self w') = _sqs_url (self w)
  ∧ _sqs_args (self w') = _sqs_args (self w)
  ∧ (claimed w' = claimed w ∧ confirmed (calls w') = confirmed (calls w)
     ∨ claimed w' = [] ∧ confirmed (calls w') = (confirmed (calls w) ++ claimed w)%list).

(** [Enter] among the events. *)
Definition is_enter (ev : Event) : bool :=
  match ev with Enter => true | _ => false end.

Definition consistent (s : System) : Prop :=
  ledger_ok (pulled (world s)) (claimed (world s)) (confirmed (calls (world s)))
    (replies (tasks s)) (next_oid (world s)).

End Loop.

(* ===================================================================== *)
(** ** The resource registry *)
(* ===================================================================== *)

Module Registry.
Import Py Client.

Section ResourceSingleton.
(** The hashable keys, with their [__eq__] and [__hash__]. *)
Context {K : Type} `{Countable K}.
(** The class that has [ResourceSingleton] as metaclass: the arguments
    after [resource], the instances, and [super().__call__], which builds
    a new instance and runs [__init__] on it. *)
Context {Args Obj : Type}.
Variable construct : K → Args → Obj.

Inductive Resource :=
  | Hashable (k : K)
  | Unhashable.

(** [_resource_instances] maps a key to an object; an object is known by
    its address in [objects]. *)
Record Classes := {
  _resource_instances : gmap K nat;
  objects : list Obj;
}.

Definition no_instances : Classes :=
  {| _resource_instances := ∅; objects := [] |}.

(** [ResourceSingleton.__call__]. *)
Definition __call__ (resource : Resource) (args : Args) (c : Classes)
  : Result nat * Classes :=
  match resource with
  | Unhashable => (Raise TypeError, c)
  | Hashable k =>
      match _resource_instances c !! k with
      | Some a => (Ok a, c)
      | None =>
          let a := length (objects c) in
          (Ok a, {| _resource_instances := <[k := a]> (_resource_instances c);
                    objects := objects c ++ [construct k args] |})
      end
  end.

(** The calls of a process, one after the other, with their results. *)
Fixpoint construct_all (reqs : list (Resource * Args)) (c : Classes)
  : list (Result nat) * Classes :=
  match reqs with
  | [] => ([], c)
  | (resource, args) :: reqs' =>
      let '(r, c') := __call__ resource args c in
      let '(rs, c'') := construct_all reqs' c' in
      (r :: rs, c'')
  end.
(** The object at address [a] takes the state [o]; the other objects and
    the dictionary stay. *)
Definition store (a : nat) (o : Obj) (c : Classes) : Classes :=
  {| _resource_instances := _resource_instances c;
     objects := <[a := o]> (objects c) |}.

(** Every key of the dictionary has an object of its own, built for it. *)
Definition well_formed (c : Classes) : Prop :=
  (∀ k a, _resource_instances c !! k = Some a →
          ∃ args, objects c !! a = Some (construct k args))
  ∧ (∀ k1 k2 a, _resource_instances c !! k1 = Some a →
                _resource_instances c !! k2 = Some a → k1 = k2).

End ResourceSingleton.

Arguments Resource K : clear implicits.
Arguments Classes K {_ _} Obj.

(** [SqsVirtualQueueClient(resource, aws_profile_name, sqs_config)]. *)
Definition new_client :
    Resource string → string * PyDict → Classes string SqsVirtualQueueClient →
    Result nat * Classes string SqsVirtualQueueClient :=
  __call__ (λ sqs_url args, __init__ sqs_url args.1 args.2).

(** The constructions of a process, one after the other. *)
Definition new_clients :
    list (Resource string * (string * PyDict)) → Classes string SqsVirtualQueueClient →
    list (Result nat) * Classes string SqsVirtualQueueClient :=
  construct_all (λ sqs_url args, __init__ sqs_url args.1 args.2).

(** A process: the instances, the transport calls so far, and the identity
    of the next message object. *)
Record Process := {
  classes : Classes string SqsVirtualQueueClient;
  transport : list (Call * option Exn);
  next_object : nat;
}.

(** A method run on the instance at address [a]; nothing happens when there
    is no such instance. *)
Definition invoke {A} (a : nat) (method : Eff A) (p : Process)
  : option (Result A) * Process :=
  match objects (classes p) !! a with
  | Some inst =>
      let '(r, w) := method {| self := inst; calls := transport p;
                               next_oid := next_object p |} in
      (Some r,
       {| classes := store a (self w) (classes p);
          transport := calls w;
          next_object := next_oid w |})
  | None => (None, p)
  end.

End Registry.

(* ===================================================================== *)
(** ** The first interface: [snqueue.py] *)
(* ===================================================================== *)

Module Agent.
Import Py.
Local Open Scope list_scope.

(** The dataclass [SqsArgs]. *)
Record SqsArgs := {
  MaxNumberOfMessages : Z;
  VisibilityTimeout : Z;
  WaitTimeSeconds : Z;
}.

Definition SqsArgs_default : SqsArgs :=
  {| MaxNumberOfMessages := 1; VisibilityTimeout := 30; WaitTimeSeconds := 5 |}.

(** What is asked of boto3, in the order it is asked. *)
Inductive Op :=
  | Session (profile_name : string)
  | client (client_name : string)
  | receive_message (args : list PyVal) (QueueUrl : string)
  | delete_message (QueueUrl : string) (ReceiptHandle : PyVal)
  | close.

(** How boto3 answers: [None] where an operation that returns nothing
    succeeds, the exception where it fails.  [on_receive] answers with the
    [Messages] member of the response, a list, when the response has one.
    [on_delete n] answers the [n]-th operation of the run. *)
Record Boto3 := {
  on_session : string → option Exn;
  on_client : string → option Exn;
  on_receive : list PyVal → string → Result (option (list PyVal));
  on_delete : nat → string → PyVal → option Exn;
  on_close : option Exn;
}.

(** An [SqsAgent]: the attributes of [AwsAgent.__init__] and of
    [SqsAgent.__init__], and whether [__enter__] has set [self.client]. *)
Record SqsAgent := {
  client_name : string;
  profile_name : string;
  sqs_url : string;
  sqs_args : SqsArgs;
  has_client : bool;
}.

(** [SqsAgent.__init__]: [sqs_args or SqsArgs()]; an instance of the
    dataclass is true, so only [None] takes the default. *)
Definition SqsAgent_init (profile_name sqs_url : string) (sqs_args : option SqsArgs)
  : SqsAgent :=
  {| client_name := "sqs"; profile_name := profile_name; sqs_url := sqs_url;
     sqs_args := match sqs_args with Some a => a | None => SqsArgs_default end;
     has_client := false |}.

(** A method runs on the agent and the operations made so far. *)
Definition Run (A : Type) : Type := SqsAgent * list Op → Result A * (SqsAgent * list Op).

Definition pure {A} (a : A) : Run A := λ st, (Ok a, st).
Definition fail {A} (e : Exn) : Run A := λ st, (Raise e, st).
Definition andthen {A B} (m : Run A) (k : A → Run B) : Run B := λ st,
  match m st with
  | (Ok a, st') => k a st'
  | (Raise e, st') => (Raise e, st')
  end.

Declare Scope run_scope.
Delimit Scope run_scope with run.
Notation "x <- m ;; k" := (andthen m (λ x, k))
  (at level 100, m at next level, k at level 200, right associativity) : run_scope.
Notation "m ;; k" := (andthen m (λ _, k))
  (at level 100, k at level 200, right associativity) : run_scope.

(** An operation that returns nothing: it is made, then it may raise. *)
Definition op (o : Op) (answer : option Exn) : Run unit := λ st,
  (match answer with None => Ok () | Some e => Raise e end, (st.1, st.2 ++ [o])).

(** [self.client]: [AttributeError] before [__enter__]. *)
Definition the_client : Run unit := λ st,
  if has_client st.1 then (Ok (), st) else (Raise AttributeError, st).

(** [AwsAgent.__enter__]. *)
Definition __enter__ (boto : Boto3) : Run unit :=
  (profile <- (λ st, (Ok (profile_name st.1), st)) ;;
   op (Session profile) (on_session boto profile) ;;
   name <- (λ st, (Ok (client_name st.1), st)) ;;
   op (client name) (on_client boto name) ;;
   λ st, (Ok (), ({| client_name := client_name st.1; profile_name := profile_name st.1;
                     sqs_url := sqs_url st.1; sqs_args := sqs_args st.1;
                     has_client := true |}, st.2)))%run.

(** [AwsAgent.__exit__]: it returns [None], so an exception of the body is
    raised again. *)
Definition __exit__ (boto : Boto3) : Run unit :=
  (the_client ;; op close (on_close boto))%run.

(** [*self.sqs_args] in a call: the argument after [*] must be iterable,
    and an instance of a dataclass is not. *)
Definition star (args : SqsArgs) : Result (list PyVal) := Raise TypeError.

(** [SqsAgent.pull_messages]: [response.get('Messages', [])]. *)
Definition pull_messages (boto : Boto3) (delete : bool) : Run (list PyVal) :=
  (the_client ;;
   args <- (λ st, (star (sqs_args st.1), st)) ;;
   url <- (λ st, (Ok (sqs_url st.1), st)) ;;
   response <- (λ st, (on_receive boto args url, (st.1, st.2 ++ [receive_message args url]))) ;;
   pure (match response with Some messages => messages | None => [] end))%run.

(** [msg['ReceiptHandle']]: a [KeyError] on a [dict] without the key, a
    [TypeError] on a value that cannot be subscripted with a [str]. *)
Definition receipt_handle (msg : PyVal) : Result PyVal :=
  match msg with
  | PDict d =>
      match dict_lookup "ReceiptHandle" d with
      | Some handle => Ok handle
      | None => Raise KeyError
      end
  | _ => Raise TypeError
  end.

(** The [for] loop of [SqsAgent.delete_messages], before the [n]-th
    operation of the run. *)
Fixpoint delete_each (boto : Boto3) (messages : list PyVal) (n : nat) : Run unit :=
  match messages with
  | [] => pure ()
  | msg :: rest =>
      (the_client ;;
       url <- (λ st, (Ok (sqs_url st.1), st)) ;;
       handle <- (λ st, (receipt_handle msg, st)) ;;
       op (delete_message url handle) (on_delete boto n url handle) ;;
       delete_each boto rest (S n))%run
  end.

(** [SqsAgent.delete_messages]. *)
Definition delete_messages (boto : Boto3) (messages : list PyVal) : Run nat :=
  (n <- (λ st, (Ok (length st.2), st)) ;;
   delete_each boto messages n ;;
   pure (length messages))%run.

(** The body of the [with] statement of [SnQueue.retrieve]. *)
Definition retrieve_body (boto : Boto3) (delete : bool) : Run (list PyVal) :=
  (messages <- pull_messages boto delete ;;
   (if delete then (delete_messages boto messages ;; pure ()) else pure ()) ;;
   pure messages)%run.

(** [SnQueue.retrieve], with the operations it made.  The [with] statement
    runs [__exit__] after the body, however the body ends, and not at all
    when [__enter__] raises; an exception of [__exit__] takes the place of
    the outcome of the body. *)
Definition retrieve (boto : Boto3) (profile_name sqs_url : string)
    (delete : bool) (sqs_args : option SqsArgs) : Result (list PyVal) * list Op :=
  match __enter__ boto (SqsAgent_init profile_name sqs_url sqs_args, []) with
  | (Raise e, st) => (Raise e, st.2)
  | (Ok _, st1) =>
      let '(r, st2) := retrieve_body boto delete st1 in
      match __exit__ boto st2 with
      | (Raise e, st3) => (Raise e, st3.2)
      | (Ok _, st3) => (r, st3.2)
      end
  end.

(** The receipt handles of the messages before the first message that has
    none. *)
Fixpoint leading_handles (messages : list PyVal) : list PyVal :=
  match messages with
  | [] => []
  | msg :: rest =>
      match receipt_handle msg with
      | Ok handle => handle :: leading_handles rest
      | Raise _ => []
      end
  end.

End Agent.

(* ===================================================================== *)
(** ** Decrypting a stored email: [utils/email.py] *)
(* ===================================================================== *)

Module Email.
Import Py.
Local Open Scope list_scope.

(** A binary file object opened for reading and writing: what it holds and
    where it stands. *)
Record File := {
  data : list Byte.byte;
  position : nat;
}.

Definition empty_file : File := {| data := []; position := 0 |}.

(** [f.seek(0)]. *)
Definition seek0 (f : File) : File := {| data := data f; position := 0 |}.

(** [f.read(n)]: up to [n] bytes from the position on. *)
Definition read (n : nat) (f : File) : list Byte.byte * File :=
  let chunk := take n (drop (position f) (data f)) in
  (chunk, {| data := data f; position := position f + length chunk |}).

(** [f.write(bs)]: over what stands at the position, and beyond the end;
    a gap before the position reads as zeros. *)
Definition write (bs : list Byte.byte) (f : File) : File :=
  {| data := take (position f) (data f)
             ++ replicate (position f - length (data f)) Byte.x00
             ++ bs
             ++ drop (position f + length bs) (data f);
     position := position f + length bs |}.

(** [f.truncate(size)] on a file of the file system: a negative size is an
    [OSError]; a size beyond the end extends the file with zeros.  The
    position stays. *)
Definition truncate (size : Z) (f : File) : Result File :=
  if (size <? 0)%Z then Raise (OtherError "OSError")
  else Ok {| data := take (Z.to_nat size) (data f)
                     ++ replicate (Z.to_nat size - length (data f)) Byte.x00;
             position := position f |}.

(** What [decrypt_s3_email] calls outside this repository's sources:
    [base64.b64decode], [KmsClient.decrypt], [int], [AES.new] in GCM mode
    and the [decrypt] of the cipher object, which takes the cipher object
    to its next state. *)
Record Library := {
  Cipher : Type;
  b64decode : PyVal → Result (list Byte.byte);
  kms_decrypt : list Byte.byte → PyVal → Result PyDict;
  int : PyVal → Result Z;
  AES_new : PyVal → list Byte.byte → Result Cipher;
  decrypt : Cipher → list Byte.byte → list Byte.byte * Cipher;
}.

(** [d[key]]. *)
Definition item (d : PyDict) (key : string) : Result PyVal :=
  match dict_lookup key d with
  | Some v => Ok v
  | None => Raise KeyError
  end.

Definition chunk_size : nat := 16 * 1024.

(** The [while True] loop.  Every round but the last reads at least one
    byte, so [fuel] above the length of the encrypted file never runs
    out. *)
Fixpoint decrypt_chunks (lib : Library) (fuel : nat) (decryptor : Cipher lib)
    (enc_file dec_file : File) : File * File :=
  match fuel with
  | O => (enc_file, dec_file)
  | S fuel =>
      let '(chunk, enc_file') := read chunk_size enc_file in
      match chunk with
      | [] => (enc_file', dec_file)
      | _ :: _ =>
          let '(plain, decryptor') := decrypt lib decryptor chunk in
          decrypt_chunks lib fuel decryptor' enc_file' (write plain dec_file)
      end
  end.

(** [decrypt_s3_email]: the outcome and the two files as it leaves them. *)
Definition decrypt_s3_email (lib : Library) (enc_file dec_file : File)
    (metadata : PyDict) : Result unit * File * File :=
  match
    (key_v2 <- item metadata "x-amz-key-v2" ;;
     envelope_key <- b64decode lib key_v2 ;;
     matdesc <- item metadata "x-amz-matdesc" ;;
     encrypt_ctx <- Json.loads matdesc ;;
     response <- kms_decrypt lib envelope_key encrypt_ctx ;;
     encrypt_key <- item response "Plaintext" ;;
     iv_text <- item metadata "x-amz-iv" ;;
     iv <- b64decode lib iv_text ;;
     length_text <- item metadata "x-amz-unencrypted-content-length" ;;
     original_size <- int lib length_text ;;
     decryptor <- AES_new lib encrypt_key iv ;;
     Ok (original_size, decryptor))%result
  with
  | Raise e => (Raise e, enc_file, dec_file)
  | Ok (original_size, decryptor) =>
      let '(enc_file', dec_file') :=
        decrypt_chunks lib (S (length (data enc_file))) decryptor
          (seek0 enc_file) dec_file in
      match truncate original_size dec_file' with
      | Raise e => (Raise e, enc_file', dec_file')
      | Ok dec_file'' => (Ok (), enc_file', dec_file'')
      end
  end.

(** The cipher object works as a stream: it gives as many bytes as it
    takes, and decrypting a text in two pieces gives the two halves of what
    decrypting it in one piece gives. *)
Definition stream (lib : Library) : Prop :=
  ∀ (c : Cipher lib) (a b : list Byte.byte),
    length (decrypt lib c a).1 = length a
    ∧ decrypt lib c (a ++ b)
      = ((decrypt lib c a).1 ++ (decrypt lib (decrypt lib c a).2 b).1,
         (decrypt lib (decrypt lib c a).2 b).2).

End Email.

(* ===================================================================== *)
(** ** Concrete messages and worlds *)
(* ===================================================================== *)

Module Scenario.
Import Py Matcher Client Loop.

(** The world of an entered instance that waits for ["abc123"]. *)
Definition waiting_for_abc123 : World :=
  {| self := {| _sqs_url := "https://sqs/replies"; _aws_profile_name := "default";
                _sqs_args := [("MaxNumberOfMessages", PInt 2)];
                entered := Some {| _inqueue_messages := [];
                                   _processed_messages := [];
                                   _waiting_for_polling := {["abc123"]} |} |};
     calls := []; next_oid := 0 |}.

(** The reply of a worker to the request [request_id]. *)
Definition reply_to (request_id : string) : PyDict :=
  [("MessageId", PStr ("m-" ++ request_id));
   ("ReceiptHandle", PStr ("rh-" ++ request_id));
   ("Body", PStr
      (Json.json
         ("{'MessageAttributes': {'SnQueueResponseMetadata': " ++
          "{'Type': 'String', 'Value': '{\'RequestId\': \'" ++ request_id ++
          "\'}'}}}")))].

Definition fresh_process : System := boot "https://sqs/replies" "default" [].

(** An entered instance that holds, still unclaimed, a reply to ["r2"]
    followed by two replies to ["r1"], while both requests wait. *)
Definition three_pulled : Pools :=
  {| _inqueue_messages := [ {| oid := 0; raw := reply_to "r2" |};
                            {| oid := 1; raw := reply_to "r1" |};
                            {| oid := 2; raw := reply_to "r1" |} ];
     _processed_messages := [];
     _waiting_for_polling := {["r1"; "r2"]} |}.

Definition holding_replies : World :=
  {| self := {| _sqs_url := "https://sqs/replies"; _aws_profile_name := "default";
                _sqs_args := []; entered := Some three_pulled |};
     calls := []; next_oid := 3 |}.

(** What the queue answers to a pull: a reply to ["abc123"] between two
    replies to requests that nobody waits for. *)
Definition mixed_batch : list PyDict :=
  [reply_to "zzz"; reply_to_abc123; reply_to "yyy"].

(** Three constructions, the first and the last for the same queue. *)
Definition three_constructions : list (Registry.Resource string * (string * PyDict)) :=
  [(Registry.Hashable "https://sqs/replies", ("default", []));
   (Registry.Hashable "https://sqs/other", ("default", []));
   (Registry.Hashable "https://sqs/replies", ("staging", []))].

(** A request for ["r1"] polls an empty queue and then times out. *)
Definition r1_times_out : list Event :=
  [Enter; Request "r1" default_match_fn; Run 0 (delivers []); Run 0 (delivers []); Timeout 0].

(** Afterwards a request for ["r2"] is made; the queue delivers the late
    reply to ["r1"] first, and the reply to ["r2"] whenever it is asked
    again. *)
Definition r2_after_late_reply : list Event :=
  [Request "r2" default_match_fn; Run 1 (delivers []); Run 1 (delivers [reply_to "r1"]);
   Run 1 (delivers [reply_to "r2"]); Run 1 (delivers [reply_to "r2"]); Run 1 (delivers [reply_to "r2"])].

(** One request, answered by the first poll that pulls; then a second
    request makes the next poll cycle run. *)
Definition abc123_answered : list Event :=
  [Enter; Request "abc123" default_match_fn; Run 0 (delivers []); Run 0 (delivers [reply_to_abc123]);
   Request "later" default_match_fn; Run 1 (delivers []); Run 1 (delivers [])].

(** Two requests wait; one pull brings the reply to the second before the
    reply to the first. *)
Definition replies_out_of_order : list Event :=
  [Enter; Request "r1" default_match_fn; Request "r2" default_match_fn;
   Run 0 (delivers []); Run 1 (delivers []); Run 0 (delivers [reply_to "r2"; reply_to "r1"]); Run 1 (delivers [])].

(** The same request for ["r2"] when nobody has timed out before. *)
Definition r2_alone : list Event :=
  [Enter; Request "r2" default_match_fn; Run 0 (delivers []); Run 0 (delivers [reply_to "r1"]);
   Run 0 (delivers [reply_to "r2"])].

(** A client of [delete_message_batch] that reports every entry as
    deleted. *)
Definition echo_client : Sqs.BatchClient := λ _ batch,
  Ok {| Sqs.Successful := Some (PDict <$> batch); Sqs.Failed := Some [] |}.

(** Twelve replies, each with its receipt handle; and eleven of them
    followed by a message without a handle and one more reply. *)
Definition twelve_messages : list PyDict :=
  reply_to <$> ["a"; "b"; "c"; "d"; "e"; "f"; "g"; "h"; "i"; "j"; "k"; "l"].

Definition twelve_entries : list PyDict :=
  (λ m, match Sqs.entry m with Ok e => e | Raise _ => [] end) <$> twelve_messages.

Definition no_handle : PyDict := [("MessageId", PStr "m-x"); ("Body", PStr "{}")].

(** An agent inside its [with] block, and a boto3 that accepts every
    operation. *)
Definition entered_agent : Agent.SqsAgent :=
  {| Agent.client_name := "sqs"; Agent.profile_name := "default";
     Agent.sqs_url := "https://sqs/replies";
     Agent.sqs_args := Agent.SqsArgs_default; Agent.has_client := true |}.

Definition accepting_boto : Agent.Boto3 :=
  {| Agent.on_session := λ _, None; Agent.on_client := λ _, None;
     Agent.on_receive := λ _ _, Ok None;
     Agent.on_delete := λ _ _ _, None; Agent.on_close := None |}.

(** An entered instance with one claimed message and an empty pulled pool,
    waiting for ["abc123"]. *)
Definition one_claimed : Pools :=
  {| _inqueue_messages := [];
     _processed_messages := [ {| oid := 0; raw := reply_to "old" |} ];
     _waiting_for_polling := {["abc123"]} |}.

Definition holding_claimed : World :=
  {| self := {| _sqs_url := "https://sqs/replies"; _aws_profile_name := "default";
                _sqs_args := []; entered := Some one_claimed |};
     calls := []; next_oid := 1 |}.

(** A batch whose second message has no correlation metadata. *)
Definition batch_with_stranger : list PyDict :=
  [reply_to "zzz"; [("Body", PStr "{}")]; reply_to "abc123"].

(** An entered instance that holds a reply to ["r1"] while only ["r2"] is
    waited for. *)
Definition stale_pools : Pools :=
  {| _inqueue_messages := [ {| oid := 0; raw := reply_to "r2" |};
                            {| oid := 1; raw := reply_to "r1" |} ];
     _processed_messages := [];
     _waiting_for_polling := {["r2"]} |}.

Definition holding_stale : World :=
  {| self := {| _sqs_url := "https://sqs/replies"; _aws_profile_name := "default";
                _sqs_args := []; entered := Some stale_pools |};
     calls := []; next_oid := 2 |}.

(** A transport whose [delete_message_batch] fails, as on a lost
    connection; everything else answers as in [delivers]. *)
Definition deletion_fails : Transport :=
  {| enters := None;
     deletes := λ _ _, Raise (OtherError "ClientError");
     receives := λ _, Ok (Some []);
     releases := None;
     exits := None |}.


(** A transport whose [receive_message] fails. *)
Definition pull_fails : Transport :=
  {| enters := None;
     deletes := deletes (delivers []);
     receives := λ _, Raise (OtherError "ClientError");
     releases := None;
     exits := None |}.

(** What happens between the entry and the exit of one context: two
    requests, both answered. *)
Definition inside_one_context : list Event :=
  [Request "r1" default_match_fn; Request "r2" default_match_fn;
   Run 0 (delivers []); Run 1 (delivers []); Run 0 (delivers [reply_to "r2"; reply_to "r1"]); Run 1 (delivers [])].

(** Requests on a client that was never entered. *)
Definition never_entered : list Event :=
  [Request "r1" default_match_fn; Run 0 (delivers [reply_to "r1"]);
   Request "r2" default_match_fn; Timeout 1; Exit (delivers [])].

(** A library whose cipher leaves the text as it is and counts the bytes
    it has seen; its key service answers with a fixed key, and every
    length reads as five. *)
Definition toy_library : Email.Library :=
  {| Email.Cipher := nat;
     Email.b64decode := λ _, Ok [];
     Email.kms_decrypt := λ _ _, Ok [("Plaintext", PStr "key")];
     Email.int := λ _, Ok 5%Z;
     Email.AES_new := λ _ _, Ok 0;
     Email.decrypt := λ c bs, (bs, c + length bs) |}.

Definition toy_metadata : PyDict :=
  [("x-amz-key-v2", PStr "a2V5"); ("x-amz-matdesc", PStr "{}");
   ("x-amz-iv", PStr "aXY="); ("x-amz-unencrypted-content-length", PStr "5")].

Definition seven_bytes : Email.File :=
  {| Email.data := [Byte.x68; Byte.x65; Byte.x6c; Byte.x6c; Byte.x6f; Byte.x21; Byte.x21];
     Email.position := 3 |}.

End Scenario.

(* ===================================================================== *)
(** * Properties *)
(* ===================================================================== *)

Import Py Matcher Client Loop Scenario.
Open Scope list_scope.

(** ** The default matcher *)

Section DefaultMatcher.

Lemma truthy_nonempty_dict (d : PyDict) : d ≠ [] → truthy (PDict d) = true.
Proof. by destruct d. Qed.

(** On a reply of the documented shape the default matcher compares the
    [RequestId] of the metadata with the correlation identifier. *)
Lemma default_match_fn_well_formed
    (message_id body_text value : string) (message body attributes entry metadata : PyDict) :
  dict_lookup "Body" message = Some (PStr body_text) →
  Json.decode body_text = Ok (PDict body) →
  dict_lookup "MessageAttributes" body = Some (PDict attributes) →
  dict_lookup "SnQueueResponseMetadata" attributes = Some (PDict entry) →
  dict_lookup "Value" entry = Some (PStr value) →
  Json.decode value = Ok (PDict metadata) →
  metadata ≠ [] →
  default_match_fn message_id message =
    Ok (str_eq message_id
          (match dict_lookup "RequestId" metadata with Some v => v | None => PNone end)).
Proof.
  intros Hbody Hdec Hattrs Hentry Hvalue Hmeta Hne.
  unfold default_match_fn. rewrite Hbody. cbn [Json.loads rbind].
  rewrite Hdec. cbn [rbind py_get]. rewrite Hattrs. cbn [rbind py_get].
  rewrite Hentry. cbn [rbind py_get]. rewrite Hvalue. cbn [rbind Json.loads].
  rewrite Hmeta. cbn [rbind]. rewrite (truthy_nonempty_dict _ Hne).
  reflexivity.
Qed.

Example default_match_fn_abc123 :
  default_match_fn "abc123" reply_to_abc123 = Ok true
  ∧ default_match_fn "abc124" reply_to_abc123 = Ok false.
Proof. split; vm_compute; reflexivity. Qed.

(** C5: the default matcher is to answer [false] on a malformed message
    and never raise.  It raises instead: [TypeError] on a message with no
    [Body], [JSONDecodeError] on a body that is not JSON, on an envelope
    with no correlation metadata and on metadata that is not JSON,
    [AttributeError] on a body that is not an object; and a poll cycle
    that pulls such a message fails with that exception. *)
Theorem default_match_fn_raises_on_malformed :
  default_match_fn "abc123" [("ReceiptHandle", PStr "rh-1")] = Raise TypeError
  ∧ default_match_fn "abc123" [("Body", PStr "not json")] = Raise JSONDecodeError
  ∧ default_match_fn "abc123" [("Body", PStr "{}")] = Raise JSONDecodeError
  ∧ default_match_fn "abc123"
      [("Body", PStr (Json.json
          "{'MessageAttributes': {'SnQueueResponseMetadata': {'Value': 'oops'}}}"))]
    = Raise JSONDecodeError
  ∧ default_match_fn "abc123" [("Body", PStr "[]")] = Raise AttributeError
  ∧ (_poll_messages default_match_fn (delivers [[("Body", PStr "{}")]])
       waiting_for_abc123).1
    = Raise JSONDecodeError.
Proof. repeat split; vm_compute; reflexivity. Qed.

End DefaultMatcher.

(** ** The arguments of a pull *)

Section ReceiveMessageArgs.

(** The integers that [SqsReceiveMessageArgs] admits when given. *)
Lemma MaxNumberOfMessages_admits (n : Z) :
  Sqs.MaxNumberOfMessages (Sqs.Given (Some n)) = Ok (Some n) ↔ (2 ≤ n ≤ 10)%Z.
Proof.
  unfold Sqs.MaxNumberOfMessages.
  destruct (Z.ltb_spec 1 n), (Z.leb_spec n 10); cbn; split;
    first [lia | discriminate | reflexivity].
Qed.

(** C9: the pull is to accept every batch size from 1 to 10, and the
    arguments type is to admit 1.  [pull_messages] itself passes 1 on,
    and 1 is the default of the field, but the type rejects a given 1:
    its lower bound is exclusive. *)
Theorem MaxNumberOfMessages_rejects_one :
  Sqs.MaxNumberOfMessages (Sqs.Given (Some 1%Z)) = Raise ValidationError
  ∧ Sqs.MaxNumberOfMessages Sqs.Absent = Ok (Some 1%Z)
  ∧ Sqs.MaxNumberOfMessages (Sqs.Given (Some 2%Z)) = Ok (Some 2%Z)
  ∧ Sqs.MaxNumberOfMessages (Sqs.Given (Some 10%Z)) = Ok (Some 10%Z)
  ∧ Sqs.MaxNumberOfMessages (Sqs.Given (Some 11%Z)) = Raise ValidationError
  ∧ Sqs.pull_messages (λ _, Ok []) "https://sqs/replies" [("MaxNumberOfMessages", PInt 1)]
    = Ok (PList []).
Proof. repeat split; reflexivity. Qed.

End ReceiveMessageArgs.

(** ** The methods of the client *)

Section Methods.

Implicit Types (w : World) (p : Pools) (match_fn : MatchFn) (sqs : Transport).
Implicit Types (cs : list (Call * option Exn)).


Lemma confirmed_app cs1 cs2 : confirmed (cs1 ++ cs2) = confirmed cs1 ++ confirmed cs2.
Proof.
  induction cs1 as [|[[] []] cs1 IH]; cbn; try done.
  by rewrite IH, app_assoc.
Qed.

Lemma released_app cs1 cs2 : released (cs1 ++ cs2) = released cs1 ++ released cs2.
Proof.
  induction cs1 as [|[[] ?] cs1 IH]; cbn; [done|done..|].
  by rewrite IH, app_assoc.
Qed.


(** *** The pull *)

Lemma messages_of_response (l : list PyDict) : messages_of (PList (PDict <$> l)) = l.
Proof. cbn. induction l as [|d l IH]; [done|]. cbn. by rewrite IH. Qed.

(** A pull returns exactly when no keyword collides with a parameter and
    [receive_message] returns; it gives the messages of the response. *)
Lemma pulling_returns sqs (sqs_url : string) (kwargs : PyDict) (response : list PyDict) :
  pulling sqs sqs_url kwargs = Ok response ↔
  dict_lookup "self" kwargs = None
  ∧ dict_lookup "sqs_url" kwargs = None
  ∧ dict_lookup "QueueUrl" kwargs = None
  ∧ ∃ r, receives sqs (("QueueUrl", PStr sqs_url) :: kwargs) = Ok r
         ∧ response = match r with Some l => l | None => [] end.
Proof.
  unfold pulling, Sqs.pull_messages.
  destruct (dict_lookup "self" kwargs), (dict_lookup "sqs_url" kwargs),
    (dict_lookup "QueueUrl" kwargs); cbn;
    try (split; [done|intros (? & ? & ? & _); done]).
  destruct (receives sqs _) as [[l|]|e]; cbn.
  - change (omap _ (PDict <$> l)) with (messages_of (PList (PDict <$> l))).
    rewrite messages_of_response. split.
    + intros [= <-]. repeat split. by exists (Some l).
    + intros (_ & _ & _ & r & [= <-] & ->). done.
  - split.
    + intros [= <-]. repeat split. by exists None.
    + intros (_ & _ & _ & r & [= <-] & ->). done.
  - split; [done|]. intros (_ & _ & _ & r & ? & _). done.
Qed.

Lemma pull_returns sqs w (response : list PyDict) :
  pulling sqs (_sqs_url (self w)) (_sqs_args (self w)) = Ok response →
  pull sqs w
  = (Ok (fresh w response),
     {| self := self w;
        calls := calls w
                 ++ [(pull_messages (_sqs_url (self w)) (_sqs_args (self w)), None)];
        next_oid := next_oid w + length response |}).
Proof. intros Hpull. unfold pull. by rewrite Hpull. Qed.

(** *** The flush *)

(** The flush of a poll cycle, case by case: the claimed pool is cleared
    when [delete_messages] has returned, and stays when it raises. *)
Lemma flush_cases sqs w :
  flush sqs w
  = match entered (self w) with
    | None => (Raise AttributeError, w)
    | Some p =>
        if nonempty (_processed_messages p) then
          match deleting sqs (_processed_messages p) with
          | None =>
              (Ok (),
               set_entered (with_processed [] p)
                 (record (delete_messages (_sqs_url (self w)) (_processed_messages p))
                    None w))
          | Some e =>
              (Raise e,
               record (delete_messages (_sqs_url (self w)) (_processed_messages p))
                 (Some e) w)
          end
        else (Ok (), w)
    end.
Proof.
  unfold flush, delete_processed, bind, attr, update, delete, call, ret.
  destruct (entered (self w)) as [p|] eqn:He; [|done]. cbv beta iota.
  destruct (nonempty (_processed_messages p)); [|done]. rewrite He. cbv beta iota.
  destruct (deleting sqs (_processed_messages p)); cbv beta iota; [done|].
  change (entered (self (record _ None w))) with (entered (self w)). by rewrite He.
Qed.

(** [__aexit__], case by case. *)
Lemma aexit_cases sqs w :
  __aexit__ sqs w
  = match entered (self w) with
    | None => (Raise AttributeError, w)
    | Some p =>
        if nonempty (_processed_messages p) then
          match enters sqs with
          | Some e => (Raise e, w)
          | None =>
              match deleting sqs (_processed_messages p) with
              | None =>
                  (match exits sqs with Some e => Raise e | None => Ok () end,
                   set_entered (with_processed [] p)
                     (record (delete_messages (_sqs_url (self w)) (_processed_messages p))
                        None w))
              | Some e =>
                  (match exits sqs with Some e' => Raise e' | None => Raise e end,
                   record (delete_messages (_sqs_url (self w)) (_processed_messages p))
                     (Some e) w)
              end
          end
        else (Ok (), w)
    end.
Proof.
  unfold __aexit__, with_SqsClient, delete_processed, bind, attr, update, delete, call, ret.
  destruct (entered (self w)) as [p|] eqn:He; [|done]. cbv beta iota.
  destruct (nonempty (_processed_messages p)); [|done].
  destruct (enters sqs); [done|]. rewrite He. cbv beta iota.
  destruct (deleting sqs (_processed_messages p)); cbv beta iota;
    [by destruct (exits sqs)|].
  change (entered (self (record _ None w))) with (entered (self w)). rewrite He.
  by destruct (exits sqs).
Qed.

(** C7: a poll cycle that finds the pulled pool non-empty does nothing: it
    returns at once, with no call to the transport and with the instance,
    hence its three pools, as it was. *)
Theorem poll_with_pulled_messages_is_noop match_fn sqs w p :
  entered (self w) = Some p →
  _inqueue_messages p ≠ [] →
  _poll_messages match_fn sqs w = (Ok (), w).
Proof.
  intros He Hne. unfold _poll_messages, bind, attr. rewrite He.
  by destruct (_inqueue_messages p).
Qed.

(** C10: [__aenter__] always succeeds and leaves the three pools empty,
    whatever they held, also on an instance that is already entered; it
    makes no call, so nothing is flushed, and the tasks that wait keep
    waiting with their identifiers gone from the waiting set. *)
Theorem aenter_resets_pools w :
  (__aenter__ w).1 = Ok ()
  ∧ entered (self (__aenter__ w).2)
    = Some {| _inqueue_messages := []; _processed_messages := [];
              _waiting_for_polling := ∅ |}
  ∧ calls (__aenter__ w).2 = calls w
  ∧ next_oid (__aenter__ w).2 = next_oid w
  ∧ _sqs_url (self (__aenter__ w).2) = _sqs_url (self w)
  ∧ _aws_profile_name (self (__aenter__ w).2) = _aws_profile_name (self w)
  ∧ _sqs_args (self (__aenter__ w).2) = _sqs_args (self w)
  ∧ (∀ s : System,
       pulled (world (step Enter s)) = []
       ∧ claimed (world (step Enter s)) = []
       ∧ waiting (world (step Enter s)) = ∅
       ∧ deleted (calls (world (step Enter s))) = deleted (calls (world s))
       ∧ tasks (step Enter s) = tasks s).
Proof. by repeat split. Qed.

(** *** World bookkeeping *)

Lemma set_entered_same w p : entered (self w) = Some p → set_entered p w = w.
Proof. destruct w as [[] ? ?]; cbn. by intros ->. Qed.

Lemma set_entered_twice w p p' : set_entered p' (set_entered p w) = set_entered p' w.
Proof. done. Qed.

Lemma with_inqueue_same p : with_inqueue (_inqueue_messages p) p = p.
Proof. by destruct p. Qed.

(** *** The classification of a pulled batch *)

Lemma any_match_total match_fn (ids : list string) (m : Message) :
  (∀ id, id ∈ ids → raises (match_fn id (raw m)) = false) →
  any_match match_fn ids m = Ok (existsb (λ id, says_true (match_fn id (raw m))) ids).
Proof.
  induction ids as [|id ids IH]; intros Hok; [done|]. cbn.
  pose proof (Hok id ltac:(left)) as Hid.
  destruct (match_fn id (raw m)) as [[]|]; cbn in *; [done| |done].
  apply IH. intros id' Hin. apply Hok. by right.
Qed.

Lemma classify_total match_fn (messages unmatched : list Message) w p :
  entered (self w) = Some p →
  (∀ id m, id ∈ _waiting_for_polling p → m ∈ messages →
           raises (match_fn id (raw m)) = false) →
  classify match_fn messages unmatched w =
    (Ok (unmatched ++
         filter (λ m, matches_some match_fn (_waiting_for_polling p) m = false) messages),
     set_entered
       (with_inqueue
          (_inqueue_messages p ++
           filter (λ m, matches_some match_fn (_waiting_for_polling p) m = true) messages)
          p) w).
Proof.
  revert unmatched w p.
  induction messages as [|m messages IH]; intros unmatched w p He Hok.
  - cbn. rewrite !app_nil_r, with_inqueue_same, set_entered_same; done.
  - cbn [classify]. unfold bind at 1, attr at 1. rewrite He.
    unfold bind at 1, lift at 1.
    rewrite any_match_total; last first.
    { intros id Hin. apply (Hok id m); [by apply elem_of_elements|by left]. }
    fold (matches_some match_fn (_waiting_for_polling p) m).
    rewrite !filter_cons.
    destruct (matches_some match_fn (_waiting_for_polling p) m) eqn:Hm.
    + unfold bind at 1, update at 1. rewrite He.
      repeat case_decide; try done.
      erewrite IH; [|done|]; last first.
      { cbn. intros id m' Hid Hin. apply Hok; [done|by right]. }
      cbn. by rewrite <- app_assoc.
    + repeat case_decide; try done.
      erewrite IH; [|done|]; last first.
      { intros id m' Hid Hin. apply Hok; [done|by right]. }
      by rewrite <- app_assoc.
Qed.

Lemma elem_of_fresh w (response : list PyDict) (m : Message) :
  m ∈ fresh w response →
  raw m ∈ response ∧ next_oid w ≤ oid m < next_oid w + length response.
Proof.
  unfold fresh. intros (i & r & -> & Hi)%elem_of_lookup_imap. cbn.
  split; [by eapply list_elem_of_lookup_2|].
  apply lookup_lt_Some in Hi. lia.
Qed.


(** What a flush does to the pools and the books. *)
Lemma flush_flushed sqs w r w' : flush sqs w = (r, w') → flushed w w'.
Proof.
  rewrite flush_cases. unfold flushed, pulled, claimed, waiting.
  destruct (entered (self w)) as [p|] eqn:He.
  2:{ intros [= <- <-]. rewrite He. repeat split. by left. }
  destruct (nonempty (_processed_messages p)).
  2:{ intros [= <- <-]. rewrite He. repeat split. by left. }
  destruct (deleting sqs (_processed_messages p)); intros [= <- <-]; cbn; rewrite ?He.
  - rewrite confirmed_app, released_app. cbn. rewrite !app_nil_r.
    repeat split. by left.
  - rewrite confirmed_app, released_app. cbn. rewrite !app_nil_r.
    repeat split. by right.
Qed.

(** What [__aexit__] does to them; when it returns, the claimed pool is
    empty. *)
Lemma aexit_flushed sqs w r w' :
  __aexit__ sqs w = (r, w') → flushed w w' ∧ (r = Ok () → claimed w' = []).
Proof.
  rewrite aexit_cases. unfold flushed, pulled, claimed, waiting.
  destruct (entered (self w)) as [p|] eqn:He.
  2:{ intros [= <- <-]. rewrite He. repeat split. by left. }
  destruct (_processed_messages p) as [|m l] eqn:Hp; cbn [nonempty].
  { intros [= <- <-]. rewrite He, Hp. repeat split. by left. }
  destruct (enters sqs).
  { intros [= <- <-]. rewrite He, Hp. repeat split; [by left|done]. }
  destruct (deleting sqs (m :: l)); intros [= <- <-]; cbn; rewrite ?He, ?Hp.
  - rewrite confirmed_app, released_app. cbn. rewrite !app_nil_r.
    repeat split; [by left|]. by destruct (exits sqs).
  - rewrite confirmed_app, released_app. cbn. rewrite !app_nil_r.
    repeat split. by right.
Qed.

(** A flush whose deletion returns. *)
Lemma flush_exact sqs w p :
  entered (self w) = Some p →
  deleting sqs (_processed_messages p) = None →
  ∃ w1, flush sqs w = (Ok (), w1)
    ∧ entered (self w1) = Some (with_processed [] p)
    ∧ calls w1 = calls w ++ (if nonempty (_processed_messages p)
                             then [(delete_messages (_sqs_url (self w))
                                      (_processed_messages p), None)]
                             else [])
    ∧ next_oid w1 = next_oid w
    ∧ _sqs_url (self w1) = _sqs_url (self w)
    ∧ _sqs_args (self w1) = _sqs_args (self w).
Proof.
  intros He Hdel. rewrite flush_cases, He, Hdel.
  destruct (_processed_messages p) eqn:Hp; cbn [nonempty].
  - exists w. rewrite app_nil_r. repeat split; try done. rewrite He. f_equal.
    destruct p; cbn in *; by subst.
  - eexists. split; [done|]. by cbn.
Qed.

(** A poll cycle that reaches the transport, whose deletion and pull
    return and whose matcher answers: the world it leaves, and what it
    returns or raises. *)
Lemma poll_total match_fn sqs (response : list PyDict) w p :
  entered (self w) = Some p →
  _inqueue_messages p = [] →
  enters sqs = None →
  deleting sqs (_processed_messages p) = None →
  pulling sqs (_sqs_url (self w)) (_sqs_args (self w)) = Ok response →
  (∀ id r, id ∈ _waiting_for_polling p → r ∈ response →
           raises (match_fn id r) = false) →
  ∃ w', _poll_messages match_fn sqs w
        = (match exits sqs with
           | Some e => Raise e
           | None =>
               if nonempty (filter (λ m, matches_some match_fn (_waiting_for_polling p) m
                                         = false) (fresh w response))
               then match releases sqs with Some e => Raise e | None => Ok () end
               else Ok ()
           end, w')
    ∧ entered (self w')
      = Some {| _inqueue_messages :=
                  filter (λ m, matches_some match_fn (_waiting_for_polling p) m = true)
                    (fresh w response);
                _processed_messages := [];
                _waiting_for_polling := _waiting_for_polling p |}
    ∧ calls w'
      = calls w
        ++ (if nonempty (_processed_messages p)
            then [(delete_messages (_sqs_url (self w)) (_processed_messages p), None)]
            else [])
        ++ [(pull_messages (_sqs_url (self w)) (_sqs_args (self w)), None)]
        ++ (if nonempty (filter (λ m, matches_some match_fn (_waiting_for_polling p) m
                                      = false) (fresh w response))
            then [(change_message_visibility_batch (_sqs_url (self w))
                     (filter (λ m, matches_some match_fn (_waiting_for_polling p) m = false)
                        (fresh w response)) 0, releases sqs)]
            else [])
    ∧ next_oid w' = next_oid w + length response.
Proof.
  intros He Hempty Henter Hdel Hpull Hok.
  unfold _poll_messages. unfold bind at 1, attr at 1. rewrite He, Hempty. cbn [nonempty].
  unfold with_SqsClient. rewrite Henter. unfold poll_block.
  destruct (flush_exact sqs w p He Hdel) as (w1 & Hflush & He1 & Hcalls & Hnext & Hurl & Hargs).
  unfold bind at 1. rewrite Hflush.
  rewrite <- Hurl, <- Hargs in Hpull.
  unfold bind at 1. rewrite (pull_returns sqs w1 response Hpull).
  unfold bind at 1.
  erewrite (classify_total _ _ _ _ (with_processed [] p)); last first.
  { cbn. intros id m Hid Hm. apply Hok; [done|].
    apply (elem_of_fresh w1) in Hm. tauto. }
  { cbn. exact He1. }
  cbn [with_processed _waiting_for_polling _inqueue_messages app].
  replace (fresh w1 response) with (fresh w response)
    by (unfold fresh; by rewrite Hnext).
  rewrite Hempty. cbn [app].
  destruct (filter (λ m, matches_some match_fn (_waiting_for_polling p) m = false)
              (fresh w response)) as [|u um] eqn:Hu; cbn [nonempty].
  - unfold ret. eexists. split; [by destruct (exits sqs)|]. cbn. split; [done|].
    rewrite Hcalls, Hurl, Hargs, Hnext, <- app_assoc. done.
  - unfold release, call. cbv beta iota. eexists.
    split; [by destruct (exits sqs)|]. cbn. split; [done|].
    rewrite Hcalls, Hurl, Hargs, Hnext, <- !app_assoc. done.
Qed.

(** *** The scan of the pulled pool *)

(** [queue[:i] + queue[i+1:]] at the position of [m]. *)
Lemma slice_out {A} (front post : list A) (m : A) :
  take (length front) (front ++ m :: post) ++ drop (S (length front)) (front ++ m :: post)
  = front ++ post.
Proof.
  rewrite take_app_length. f_equal.
  rewrite drop_app_ge by lia.
  by replace (S (length front) - length front) with 1 by lia.
Qed.

Lemma scan_from_first_match match_fn (message_id : string)
    (front pre post : list Message) (m : Message) w p :
  entered (self w) = Some p →
  (∀ x, x ∈ pre → match_fn message_id (raw x) = Ok false) →
  match_fn message_id (raw m) = Ok true →
  message_id ∈ _waiting_for_polling p →
  scan_from match_fn message_id (front ++ pre ++ m :: post) (pre ++ m :: post)
    (length front) w
  = (Ok (Some m),
     set_entered {| _inqueue_messages := front ++ pre ++ post;
                    _processed_messages := _processed_messages p ++ [m];
                    _waiting_for_polling := _waiting_for_polling p ∖ {[message_id]} |} w).
Proof.
  intros He Hpre Hm Hin. revert front.
  induction pre as [|x pre IH]; intros front.
  - cbn [app scan_from]. unfold bind at 1, lift at 1. rewrite Hm.
    unfold bind, update, remove_waiting, attr, ret. rewrite He. cbn.
    rewrite decide_True by done. cbn.
    by rewrite slice_out.
  - cbn [app scan_from]. unfold bind at 1, lift at 1.
    rewrite (Hpre x) by left.
    specialize (IH ltac:(intros y Hy; apply Hpre; by right) (front ++ [x])).
    rewrite length_app in IH. cbn in IH.
    rewrite <- !app_assoc in IH. cbn in IH.
    by replace (S (length front)) with (length front + 1) by lia.
Qed.

(** *** What a piece of [_get_response] can do to the pools

    These hold whatever the matcher answers, also when it raises. *)

Lemma oid_fresh w (response : list PyDict) :
  oid <$> fresh w response = seq (next_oid w) (length response).
Proof.
  unfold fresh. rewrite fmap_imap.
  rewrite (imap_ext _ (λ j _, id (next_oid w + j))) by done.
  by rewrite imap_seq, list_fmap_id.
Qed.

Lemma classify_effect match_fn (messages unmatched : list Message) w r w' :
  classify match_fn messages unmatched w = (r, w') →
  ∃ sub, sub `sublist_of` messages
    ∧ pulled w' = pulled w ++ sub
    ∧ claimed w' = claimed w
    ∧ waiting w' = waiting w
    ∧ calls w' = calls w
    ∧ next_oid w' = next_oid w.
Proof.
  revert unmatched w. induction messages as [|m messages IH]; intros unmatched w Hrun.
  { exists []. cbn in Hrun. injection Hrun as <- <-. by rewrite app_nil_r. }
  assert (Hstop : w' = w → ∃ sub, sub `sublist_of` m :: messages
    ∧ pulled w' = pulled w ++ sub ∧ claimed w' = claimed w ∧ waiting w' = waiting w
    ∧ calls w' = calls w ∧ next_oid w' = next_oid w).
  { intros ->. exists []. rewrite app_nil_r. repeat split. apply sublist_nil_l. }
  cbn [classify] in Hrun. unfold bind at 1, attr in Hrun.
  destruct (entered (self w)) as [p|] eqn:He; [|apply Hstop; congruence].
  unfold bind at 1, lift in Hrun.
  destruct (any_match match_fn (elements (_waiting_for_polling p)) m) as [[]|e];
    [| |apply Hstop; congruence].
  - unfold bind at 1, update in Hrun. rewrite He in Hrun.
    apply IH in Hrun as (sub & Hsub & Hp & Hc & Hw & Hcalls & Hn).
    exists (m :: sub). split; [by apply sublist_skip|].
    rewrite Hp, Hc, Hw, Hcalls, Hn. unfold pulled, claimed, waiting. rewrite He. cbn.
    by rewrite <- app_assoc.
  - apply IH in Hrun as (sub & Hsub & Hrest).
    exists sub. split; [by apply sublist_cons|done].
Qed.

(** What a pull does: it makes its call and changes nothing in the
    instance; when it returns, it hands over the batch as new objects. *)
Lemma pull_effect sqs w r w' :
  pull sqs w = (r, w') →
  self w' = self w
  ∧ confirmed (calls w') = confirmed (calls w)
  ∧ (r = Ok (fresh w (batch sqs w)) ∧ next_oid w' = next_oid w + length (batch sqs w)
     ∨ (∃ e, r = Raise e) ∧ next_oid w' = next_oid w).
Proof.
  unfold pull, batch, fresh.
  destruct (pulling sqs _ _) as [response|e]; intros [= <- <-]; cbn;
    rewrite confirmed_app; cbn; rewrite app_nil_r.
  - repeat split. by left.
  - repeat split. right. split; [by exists e|done].
Qed.

(** The [with] block of a poll cycle appends to the pulled pool a
    subsequence of the new objects of the batch, in pull order, and either
    leaves the claimed pool alone or clears it after a deletion that
    returned. *)
Lemma block_effect match_fn sqs w r w' :
  poll_block match_fn sqs w = (r, w') →
  ∃ sub, sub `sublist_of` fresh w (batch sqs w)
    ∧ pulled w' = pulled w ++ sub
    ∧ waiting w' = waiting w
    ∧ (sub = [] ∧ next_oid w' = next_oid w
       ∨ next_oid w' = next_oid w + length (batch sqs w))
    ∧ (claimed w' = claimed w ∧ confirmed (calls w') = confirmed (calls w)
       ∨ claimed w' = [] ∧ confirmed (calls w') = confirmed (calls w) ++ claimed w).
Proof.
  unfold poll_block. unfold bind at 1.
  destruct (flush sqs w) as [r1 w1] eqn:Hflush.
  apply flush_flushed in Hflush as (Hp1 & Hw1 & Hn1 & _ & Hurl & Hargs & Hcl).
  assert (Hstop : ∀ w2, pulled w2 = pulled w1 → waiting w2 = waiting w1 →
            claimed w2 = claimed w1 → confirmed (calls w2) = confirmed (calls w1) →
            next_oid w2 = next_oid w1 →
            ∃ sub, sub `sublist_of` fresh w (batch sqs w)
              ∧ pulled w2 = pulled w ++ sub
              ∧ waiting w2 = waiting w
              ∧ (sub = [] ∧ next_oid w2 = next_oid w
                 ∨ next_oid w2 = next_oid w + length (batch sqs w))
              ∧ (claimed w2 = claimed w ∧ confirmed (calls w2) = confirmed (calls w)
                 ∨ claimed w2 = [] ∧ confirmed (calls w2) = confirmed (calls w) ++ claimed w)).
  { intros w2 -> -> -> -> ->. exists []. rewrite app_nil_r.
    repeat split; [apply sublist_nil_l|done..|by left|done]. }
  destruct r1 as [[]|e1]; [|intros [= <- <-]; by apply Hstop].
  unfold bind at 1. destruct (pull sqs w1) as [r2 w2] eqn:Hpull.
  apply pull_effect in Hpull as (Hself2 & Hconf2 & Hr2).
  assert (Hpools2 : pulled w2 = pulled w1 ∧ waiting w2 = waiting w1 ∧ claimed w2 = claimed w1)
    by (unfold pulled, waiting, claimed; by rewrite Hself2).
  destruct Hpools2 as (Hp2 & Hw2 & Hc2).
  destruct Hr2 as [[-> Hn2]|[[e2 ->] Hn2]]; [|intros [= <- <-]; by apply Hstop].
  assert (Hbatch : batch sqs w1 = batch sqs w) by (unfold batch; by rewrite Hurl, Hargs).
  assert (Hfresh : fresh w1 (batch sqs w1) = fresh w (batch sqs w))
    by (unfold fresh; by rewrite Hbatch, Hn1).
  rewrite Hbatch in Hn2. rewrite Hfresh. clear Hstop.
  unfold bind at 1.
  destruct (classify match_fn (fresh w (batch sqs w)) [] w2) as [r3 w3] eqn:Hclass.
  apply classify_effect in Hclass as (sub & Hsub & Hp3 & Hc3 & Hw3 & Hcalls3 & Hn3).
  intros Hrun.
  assert (Hlast : pulled w' = pulled w3 ∧ waiting w' = waiting w3
                  ∧ claimed w' = claimed w3 ∧ next_oid w' = next_oid w3
                  ∧ confirmed (calls w') = confirmed (calls w3)).
  { destruct r3 as [[|u um]|e3]; cbn [nonempty] in Hrun;
      [by injection Hrun as <- <-| |by injection Hrun as <- <-].
    unfold release, call in Hrun. injection Hrun as <- <-.
    unfold pulled, waiting, claimed. cbn. rewrite confirmed_app. cbn.
    by rewrite app_nil_r. }
  destruct Hlast as (-> & -> & -> & -> & ->).
  exists sub. rewrite Hp3, Hw3, Hc3, Hn3, Hcalls3, Hp2, Hw2, Hc2, Hn2, Hconf2, Hp1, Hw1, Hn1.
  repeat split; [done|by right|done].
Qed.

(** A poll cycle does as much, or nothing at all. *)
Lemma poll_effect match_fn sqs w r w' :
  _poll_messages match_fn sqs w = (r, w') →
  ∃ sub, sub `sublist_of` fresh w (batch sqs w)
    ∧ pulled w' = pulled w ++ sub
    ∧ waiting w' = waiting w
    ∧ (sub = [] ∧ next_oid w' = next_oid w
       ∨ next_oid w' = next_oid w + length (batch sqs w))
    ∧ (claimed w' = claimed w ∧ confirmed (calls w') = confirmed (calls w)
       ∨ claimed w' = [] ∧ confirmed (calls w') = confirmed (calls w) ++ claimed w).
Proof.
  intros Hrun.
  assert (Hnoop : w' = w →
    ∃ sub, sub `sublist_of` fresh w (batch sqs w)
    ∧ pulled w' = pulled w ++ sub
    ∧ waiting w' = waiting w
    ∧ (sub = [] ∧ next_oid w' = next_oid w
       ∨ next_oid w' = next_oid w + length (batch sqs w))
    ∧ (claimed w' = claimed w ∧ confirmed (calls w') = confirmed (calls w)
       ∨ claimed w' = [] ∧ confirmed (calls w') = confirmed (calls w) ++ claimed w)).
  { intros ->. exists []. rewrite app_nil_r.
    repeat split; [apply sublist_nil_l|by left|by left]. }
  unfold _poll_messages in Hrun. unfold bind at 1, attr in Hrun.
  destruct (entered (self w)) as [p|] eqn:He; [|apply Hnoop; congruence].
  destruct (_inqueue_messages p) as [|x queue] eqn:Hq; cbn [nonempty] in Hrun;
    [|apply Hnoop; unfold ret in Hrun; congruence].
  unfold with_SqsClient in Hrun.
  destruct (enters sqs); [apply Hnoop; congruence|].
  destruct (poll_block match_fn sqs w) as [r0 w0] eqn:Hblock.
  assert (w' = w0) as -> by (destruct (exits sqs); congruence).
  by eapply block_effect.
Qed.

(** A scan either changes nothing and returns no reply, or takes one
    message out of the pulled pool and puts it at the end of the claimed
    pool; that message is the reply, unless unregistering the identifier
    raises [KeyError]. *)
Lemma scan_from_effect match_fn (message_id : string) (front rest : list Message) w r w' :
  scan_from match_fn message_id (front ++ rest) rest (length front) w = (r, w') →
  calls w' = calls w ∧ next_oid w' = next_oid w
  ∧ (w' = w ∧ (∀ m, r ≠ Ok (Some m))
     ∨ ∃ pre m post, front ++ rest = pre ++ m :: post
         ∧ pulled w' = pre ++ post
         ∧ claimed w' = claimed w ++ [m]
         ∧ (r = Ok (Some m) ∨ r = Raise KeyError)).
Proof.
  revert front. induction rest as [|m rest IH]; intros front Hrun.
  { cbn in Hrun. injection Hrun as <- <-. repeat split. by left. }
  cbn [scan_from] in Hrun. unfold bind at 1, lift in Hrun.
  destruct (match_fn message_id (raw m)) as [[]|e].
  - unfold bind at 1, update at 1 in Hrun.
    destruct (entered (self w)) as [p|] eqn:He.
    2:{ injection Hrun as <- <-. repeat split. by left. }
    unfold bind, update, remove_waiting, attr, ret, raise in Hrun. cbn in Hrun.
    rewrite slice_out in Hrun.
    assert (Hc : claimed w = _processed_messages p) by (unfold claimed; by rewrite He).
    case_decide; injection Hrun as <- <-; (repeat split; [right]);
      exists front, m, rest; unfold pulled, claimed in *; cbn; rewrite ?Hc; auto.
  - specialize (IH (front ++ [m])).
    rewrite length_app, <- app_assoc in IH. cbn in IH.
    replace (length front + 1) with (S (length front)) in IH by lia.
    apply IH in Hrun as (? & ? & Hcases). repeat split; [done..|].
    destruct Hcases as [?|(pre & m' & post & Heq & ?)]; [by left|right].
    exists pre, m', post. by rewrite <- Heq.
  - injection Hrun as <- <-. repeat split. by left.
Qed.

Lemma scan_effect match_fn (message_id : string) w r w' :
  scan match_fn message_id w = (r, w') →
  calls w' = calls w ∧ next_oid w' = next_oid w
  ∧ (w' = w ∧ (∀ m, r ≠ Ok (Some m))
     ∨ ∃ pre m post, pulled w = pre ++ m :: post
         ∧ pulled w' = pre ++ post
         ∧ claimed w' = claimed w ++ [m]
         ∧ (r = Ok (Some m) ∨ r = Raise KeyError)).
Proof.
  unfold scan, bind, attr, pulled at 1. intros Hrun.
  destruct (entered (self w)) as [p|] eqn:He.
  - by apply (scan_from_effect _ _ []) in Hrun.
  - injection Hrun as <- <-. repeat split. by left.
Qed.

(** C8: a scan tests the pulled messages from the front of the pool and
    claims and returns the first one that the matcher accepts for the
    waiter's identifier, whatever lies behind it and whoever else waits;
    and the front of the pool is its oldest part, because a poll cycle
    appends what it keeps at the end, in pull order. *)
Theorem first_match_wins match_fn (message_id : string)
    (pre post : list Message) (m : Message) w p :
  entered (self w) = Some p →
  _inqueue_messages p = pre ++ m :: post →
  (∀ x, x ∈ pre → match_fn message_id (raw x) = Ok false) →
  match_fn message_id (raw m) = Ok true →
  message_id ∈ _waiting_for_polling p →
  scan match_fn message_id w
  = (Ok (Some m),
     set_entered {| _inqueue_messages := pre ++ post;
                    _processed_messages := _processed_messages p ++ [m];
                    _waiting_for_polling := _waiting_for_polling p ∖ {[message_id]} |} w)
  ∧ (∀ fn sqs w0, ∃ sub,
       sub `sublist_of` fresh w0 (batch sqs w0)
       ∧ pulled (_poll_messages fn sqs w0).2 = pulled w0 ++ sub).
Proof.
  intros He Hq Hpre Hm Hin. split.
  - unfold scan, bind, attr. rewrite He, Hq.
    by apply (scan_from_first_match _ _ []).
  - intros fn sqs w0.
    destruct (_poll_messages fn sqs w0) as [r w'] eqn:Hrun.
    apply poll_effect in Hrun as (sub & Hsub & Hp & _). by exists sub.
Qed.

End Methods.

(** ** Interleaved requests *)

Section Interleaving.

Implicit Types (w : World) (s : System) (sqs : Transport).
Implicit Types (pl cl dl rp sub : list Message).

Lemma NoDup_submseteq_inv {A} (l k : list A) : l ⊆+ k → NoDup k → NoDup l.
Proof.
  intros (l' & Hsub & Hperm)%submseteq_sublist_l Hk.
  rewrite <- Hperm in Hk. by eapply sublist_NoDup.
Qed.

Lemma ledger_perm pl cl dl rp pl' cl' dl' rp' n :
  ledger_ok pl cl dl rp n →
  (∀ x, x ∈ pl' ++ cl' ++ dl' ++ rp' → x ∈ pl ++ cl ++ dl ++ rp) →
  pl' ++ rp' ⊆+ pl ++ rp →
  pl' ++ cl' ++ dl' ⊆+ pl ++ cl ++ dl →
  ledger_ok pl' cl' dl' rp' n.
Proof.
  intros (Hall & Hrp & Hdl) H1 H2 H3. repeat split.
  - rewrite Forall_forall in *. intros m Hm. by apply Hall, H1.
  - eapply NoDup_submseteq_inv; [|exact Hrp]. by apply fmap_submseteq.
  - eapply NoDup_submseteq_inv; [|exact Hdl]. by apply fmap_submseteq.
Qed.

(** New objects join the pulled pool. *)
Lemma ledger_grow pl cl dl rp sub n n' :
  ledger_ok pl cl dl rp n →
  NoDup (oid <$> sub) →
  Forall (λ m, n ≤ oid m < n')%nat sub →
  (n ≤ n')%nat →
  ledger_ok (pl ++ sub) cl dl rp n'.
Proof.
  intros (Hall & Hrp & Hdl) Hsub Hfresh Hle.
  rewrite !Forall_app in Hall. destruct Hall as (Hpl & Hcl & Hdel & Hrep).
  assert (Hold : ∀ l, Forall (λ m, oid m < n) l → Forall (λ m, oid m < n') l).
  { intros l Hl. eapply Forall_impl; [exact Hl|]. cbn. intros; lia. }
  assert (Hnew : ∀ l m, Forall (λ m, oid m < n) l → m ∈ sub → oid m ∉ oid <$> l).
  { intros l m Hl Hm (m' & Heq & Hm')%list_elem_of_fmap.
    rewrite Forall_forall in Hl, Hfresh.
    specialize (Hl _ Hm'). specialize (Hfresh _ Hm). lia. }
  repeat split.
  - rewrite !Forall_app. repeat split; auto.
    eapply Forall_impl; [done|]. cbn. intros; lia.
  - replace ((pl ++ sub) ++ rp) with (pl ++ sub ++ rp) by by rewrite app_assoc.
    rewrite (Permutation_app_comm sub rp), app_assoc.
    rewrite fmap_app. apply NoDup_app. repeat split; [done| |done].
    intros x Hx (m & -> & Hm)%list_elem_of_fmap. revert Hx.
    apply Hnew; [|done]. by apply Forall_app.
  - replace ((pl ++ sub) ++ cl ++ dl) with (pl ++ sub ++ cl ++ dl) by by rewrite app_assoc.
    rewrite (Permutation_app_comm sub (cl ++ dl)), app_assoc.
    rewrite fmap_app. apply NoDup_app. repeat split; [done| |done].
    intros x Hx (m & -> & Hm)%list_elem_of_fmap. revert Hx.
    apply Hnew; [|done]. rewrite !Forall_app. auto.
Qed.

Local Ltac same_members :=
  let x := fresh "x" in
  intros x; rewrite ?elem_of_app, ?elem_of_cons, ?elem_of_app, ?elem_of_nil; tauto.

(** The claimed pool is flushed. *)
Lemma ledger_flush pl cl dl rp n :
  ledger_ok pl cl dl rp n → ledger_ok pl [] (dl ++ cl) rp n.
Proof.
  intros Hok. eapply ledger_perm; [done|..]; cbn.
  - same_members.
  - done.
  - apply Permutation_submseteq. solve_Permutation.
Qed.

(** The pools are emptied. *)
Lemma ledger_reset pl cl dl rp n :
  ledger_ok pl cl dl rp n → ledger_ok [] [] dl rp n.
Proof.
  intros Hok. eapply ledger_perm; [done|..]; cbn.
  - same_members.
  - solve_submseteq.
  - solve_submseteq.
Qed.

(** A message is claimed and handed to a caller. *)
Lemma ledger_claim pre post cl dl rp rp' (m : Message) n :
  ledger_ok (pre ++ m :: post) cl dl rp n →
  rp' ≡ₚ m :: rp →
  ledger_ok (pre ++ post) (cl ++ [m]) dl rp' n.
Proof.
  intros Hok Hrp. eapply ledger_perm; [done|..]; rewrite ?Hrp.
  - intros x. rewrite Hrp. revert x. same_members.
  - apply Permutation_submseteq. solve_Permutation.
  - apply Permutation_submseteq. solve_Permutation.
Qed.

(** A message is claimed and handed to nobody. *)
Lemma ledger_claim_lost pre post cl dl rp (m : Message) n :
  ledger_ok (pre ++ m :: post) cl dl rp n →
  ledger_ok (pre ++ post) (cl ++ [m]) dl rp n.
Proof.
  intros Hok. eapply ledger_perm; [done|..].
  - same_members.
  - solve_submseteq.
  - apply Permutation_submseteq. solve_Permutation.
Qed.

(** *** The replies after a task changes state *)

Lemma replies_insert_none (ts : list Task) (t : nat) (old new : Task) :
  ts !! t = Some old → reply_of old = None → reply_of new = None →
  replies (<[t := new]> ts) = replies ts.
Proof.
  intros Ht Hold Hnew. unfold replies.
  rewrite insert_take_drop by (by eapply lookup_lt_Some).
  rewrite <- (take_drop_middle ts t old Ht) at 3.
  rewrite !omap_app. cbn. by rewrite Hold, Hnew.
Qed.

Lemma replies_insert_some (ts : list Task) (t : nat) (old new : Task) (m : Message) :
  ts !! t = Some old → reply_of old = None → reply_of new = Some m →
  replies (<[t := new]> ts) ≡ₚ m :: replies ts.
Proof.
  intros Ht Hold Hnew. unfold replies.
  rewrite insert_take_drop by (by eapply lookup_lt_Some).
  rewrite <- (take_drop_middle ts t old Ht) at 3.
  rewrite !omap_app. cbn. rewrite Hold, Hnew.
  by rewrite <- Permutation_middle.
Qed.

(** *** One piece keeps the books *)

Lemma poll_consistent match_fn sqs w r w' rp :
  _poll_messages match_fn sqs w = (r, w') →
  ledger_ok (pulled w) (claimed w) (confirmed (calls w)) rp (next_oid w) →
  ledger_ok (pulled w') (claimed w') (confirmed (calls w')) rp (next_oid w').
Proof.
  intros (sub & Hsub & Hp & _ & Hnext & Hflush)%poll_effect Hok.
  assert (Hnd : NoDup (oid <$> sub)).
  { eapply sublist_NoDup; [|by apply fmap_sublist].
    rewrite oid_fresh. apply NoDup_seq. }
  assert (Hfresh : Forall (λ m, next_oid w ≤ oid m < next_oid w + length (batch sqs w))%nat
                     sub).
  { rewrite Forall_forall. intros m Hm.
    eapply elem_of_fresh, elem_of_sublist; done. }
  assert (Hgrow : ∀ cl dl, ledger_ok (pulled w) cl dl rp (next_oid w) →
                           ledger_ok (pulled w') cl dl rp (next_oid w')).
  { intros cl dl Hcl. rewrite Hp. destruct Hnext as [[-> ->]| ->].
    - by rewrite app_nil_r.
    - eapply ledger_grow; [done..|lia]. }
  destruct Hflush as [[-> ->]|[-> ->]]; apply Hgrow; [done|].
  by apply ledger_flush.
Qed.

Lemma claim_consistent (ts : list Task) (t : nat) (task : Task) w w'
    (r : Result (option Message)) :
  ts !! t = Some task → reply_of task = None →
  ledger_ok (pulled w) (claimed w) (confirmed (calls w)) (replies ts) (next_oid w) →
  calls w' = calls w → next_oid w' = next_oid w →
  (pulled w' = pulled w ∧ claimed w' = claimed w ∧ (∀ m, r ≠ Ok (Some m))
   ∨ ∃ pre m post, pulled w = pre ++ m :: post
       ∧ pulled w' = pre ++ post
       ∧ claimed w' = claimed w ++ [m]
       ∧ (r = Ok (Some m) ∨ r = Raise KeyError)) →
  ledger_ok (pulled w') (claimed w') (confirmed (calls w'))
    (replies (<[t := with_status task (outcome r)]> ts)) (next_oid w').
Proof.
  intros Ht Hold Hok -> ->.
  intros [(-> & -> & Hr)|(pre & m & post & Hpl & -> & -> & Hr)].
  - rewrite (replies_insert_none ts t task); [done..|].
    destruct r as [[m|]|e]; [by destruct (Hr m)|done..].
  - rewrite Hpl in Hok. destruct Hr as [-> | ->].
    + eapply ledger_claim; [done|]. by eapply replies_insert_some.
    + rewrite (replies_insert_none ts t task) by done.
      by apply ledger_claim_lost.
Qed.

Lemma begin_effect match_fn (message_id : string) w r w' :
  _get_response_begin message_id match_fn w = (r, w') →
  calls w' = calls w ∧ next_oid w' = next_oid w
  ∧ (pulled w' = pulled w ∧ claimed w' = claimed w ∧ (∀ m, r ≠ Ok (Some m))
     ∨ ∃ pre m post, pulled w = pre ++ m :: post
         ∧ pulled w' = pre ++ post
         ∧ claimed w' = claimed w ++ [m]
         ∧ (r = Ok (Some m) ∨ r = Raise KeyError)).
Proof.
  unfold _get_response_begin. unfold bind at 1, update at 1.
  destruct (entered (self w)) as [p|] eqn:He; intros Hrun.
  - apply scan_effect in Hrun as (-> & -> & Hcases).
    assert (Hp : pulled (set_entered
      (with_waiting ({[message_id]} ∪ _waiting_for_polling p) p) w) = pulled w)
      by (unfold pulled; by rewrite He).
    assert (Hc : claimed (set_entered
      (with_waiting ({[message_id]} ∪ _waiting_for_polling p) p) w) = claimed w)
      by (unfold claimed; by rewrite He).
    repeat split; [done..|].
    destruct Hcases as [[-> ?]|(pre & m & post & ? & ? & ? & ?)]; [by left|right].
    exists pre, m, post. by rewrite <- Hp, <- Hc.
  - injection Hrun as <- <-. repeat split. by left.
Qed.

Lemma begin_consistent (ts : list Task) (t : nat) (task : Task) w r w' :
  ts !! t = Some task → reply_of task = None →
  _get_response_begin (message_id task) (match_fn task) w = (r, w') →
  ledger_ok (pulled w) (claimed w) (confirmed (calls w)) (replies ts) (next_oid w) →
  ledger_ok (pulled w') (claimed w') (confirmed (calls w'))
    (replies (<[t := with_status task (outcome r)]> ts)) (next_oid w').
Proof.
  intros Ht Hold (Hcalls & Hnext & Hcases)%begin_effect Hok.
  by eapply claim_consistent.
Qed.

Lemma resume_consistent (ts : list Task) (t : nat) (task : Task) sqs w r w' :
  ts !! t = Some task → reply_of task = None →
  _get_response_resume (message_id task) (match_fn task) sqs w = (r, w') →
  ledger_ok (pulled w) (claimed w) (confirmed (calls w)) (replies ts) (next_oid w) →
  ledger_ok (pulled w') (claimed w') (confirmed (calls w'))
    (replies (<[t := with_status task (outcome r)]> ts)) (next_oid w').
Proof.
  intros Ht Hold Hrun Hok. unfold _get_response_resume, bind in Hrun.
  destruct (_poll_messages (match_fn task) sqs w) as [r1 w1] eqn:Hpoll.
  eapply poll_consistent in Hok; [|done].
  destruct r1 as [[]|e].
  - apply scan_effect in Hrun as (Hcalls & Hnext & Hcases).
    eapply claim_consistent; [done..|].
    destruct Hcases as [[-> ?]|?]; [by left|by right].
  - injection Hrun as <- <-.
    by rewrite (replies_insert_none ts t task).
Qed.

(** *** Every event keeps the books *)

Lemma run_piece_consistent (piece : Eff (option Message)) (t : nat) (task : Task) s :
  (∀ r w', piece (world s) = (r, w') →
     ledger_ok (pulled w') (claimed w') (confirmed (calls w'))
       (replies (<[t := with_status task (outcome r)]> (tasks s))) (next_oid w')) →
  consistent (run_piece piece t task s).
Proof.
  intros Hpiece. unfold run_piece, consistent.
  destruct (piece (world s)) as [r w'] eqn:Hrun. cbn. by apply Hpiece.
Qed.

Lemma step_consistent (ev : Event) s : consistent s → consistent (step ev s).
Proof.
  intros Hok. destruct ev as [id fn|t sqs|t| |sqs]; cbn [step].
  - unfold consistent, replies in *. cbn. by rewrite omap_app, app_nil_r.
  - destruct (tasks s !! t) as [task|] eqn:Ht; [|done].
    destruct (status task) eqn:Hst; [| |done..].
    + apply run_piece_consistent. intros r w' Hrun.
      eapply begin_consistent; [done| |done..]. unfold reply_of. by rewrite Hst.
    + apply run_piece_consistent. intros r w' Hrun.
      eapply resume_consistent; [done| |done..]. unfold reply_of. by rewrite Hst.
  - destruct (tasks s !! t) as [task|] eqn:Ht; [|done].
    assert (Hcancel : reply_of task = None → consistent
      {| world := world s;
         tasks := <[t := with_status task (Raised TimeoutError)]> (tasks s) |}).
    { intros Hold. unfold consistent. cbn.
      by rewrite (replies_insert_none (tasks s) t task). }
    destruct (status task) eqn:Hst; [| |done..];
      apply Hcancel; unfold reply_of; by rewrite Hst.
  - unfold consistent in *. cbn. by eapply ledger_reset.
  - unfold consistent in *. cbn [world tasks].
    destruct (__aexit__ sqs (world s)) as [r w'] eqn:Hrun. cbn [snd].
    apply aexit_flushed in Hrun as [(-> & _ & -> & _ & _ & _ & Hcl) _].
    destruct Hcl as [[-> ->]|[-> ->]]; [done|by apply ledger_flush].
Qed.

Lemma boot_consistent (sqs_url aws_profile_name : string) (sqs_config : PyDict) :
  consistent (boot sqs_url aws_profile_name sqs_config).
Proof. repeat split; cbn; constructor. Qed.

Lemma exec_consistent (evs : list Event) s : consistent s → consistent (exec evs s).
Proof.
  revert s. induction evs as [|ev evs IH]; intros s Hok; [done|].
  cbn. by apply IH, step_consistent.
Qed.

Lemma NoDup_omap_lookup {A B C} (f : B → C) (g : A → option B) (l : list A)
    (i j : nat) (a b : A) (x y : B) :
  NoDup (f <$> omap g l) →
  l !! i = Some a → l !! j = Some b → g a = Some x → g b = Some y →
  f x = f y → i = j.
Proof.
  revert i j. induction l as [|c l IH]; intros i j Hnd Hi Hj Ha Hb Hxy; [done|].
  assert (Hin : ∀ k d z, l !! k = Some d → g d = Some z → f z ∈ f <$> omap g l).
  { intros k d z Hk Hd. apply list_elem_of_fmap_2, list_elem_of_omap.
    exists d. split; [by eapply list_elem_of_lookup_2|done]. }
  destruct i as [|i], j as [|j]; cbn in Hi, Hj; [done|..].
  - injection Hi as ->. cbn in Hnd. rewrite Ha in Hnd. cbn in Hnd.
    apply NoDup_cons in Hnd as [Hnot _]. destruct Hnot.
    rewrite Hxy. by eapply Hin.
  - injection Hj as ->. cbn in Hnd. rewrite Hb in Hnd. cbn in Hnd.
    apply NoDup_cons in Hnd as [Hnot _]. destruct Hnot.
    rewrite <- Hxy. by eapply Hin.
  - f_equal. eapply IH; [|done..]. cbn in Hnd.
    destruct (g c); [|done]. cbn in Hnd. by apply NoDup_cons in Hnd as [_ ?].
Qed.

(** Two tasks that both returned hold different message objects. *)
Lemma returned_to_different_tasks
    (sqs_url aws_profile_name : string) (sqs_config : PyDict) (evs : list Event)
    (i j : nat) (ti tj : Task) (mi mj : Message) :
  tasks (exec evs (boot sqs_url aws_profile_name sqs_config)) !! i = Some ti →
  tasks (exec evs (boot sqs_url aws_profile_name sqs_config)) !! j = Some tj →
  status ti = Returned mi →
  status tj = Returned mj →
  i ≠ j →
  oid mi ≠ oid mj.
Proof.
  intros Hi Hj Hsi Hsj Hne Heq. apply Hne.
  pose proof (exec_consistent evs _ (boot_consistent sqs_url aws_profile_name sqs_config))
    as (_ & Hrp & _).
  rewrite fmap_app in Hrp. apply NoDup_app in Hrp as (_ & _ & Hrp).
  eapply (NoDup_omap_lookup oid reply_of); [exact Hrp|exact Hi|exact Hj|..|exact Heq].
  - unfold reply_of. by rewrite Hsi.
  - unfold reply_of. by rewrite Hsj.
Qed.

(** C1: whatever requests are made on one instance and however the loop
    interleaves them with timeouts and context entries and exits, the
    replies that callers hold are pairwise different message objects, and
    none of them is still in the pulled pool: a message is handed to at
    most one caller, and leaves the pool in the piece that hands it over. *)
Theorem reply_goes_to_one_caller
    (sqs_url aws_profile_name : string) (sqs_config : PyDict) (evs : list Event) :
  NoDup (oid <$> (pulled (world (exec evs (boot sqs_url aws_profile_name sqs_config)))
                  ++ replies (tasks (exec evs (boot sqs_url aws_profile_name sqs_config))))).
Proof.
  pose proof (exec_consistent evs _ (boot_consistent sqs_url aws_profile_name sqs_config))
    as (_ & Hrp & _).
  exact Hrp.
Qed.



End Interleaving.

(** ** The registry *)

Section RegistryFacts.

Import Registry.

Context {K : Type} `{Countable K} {Args Obj : Type} (construct : K → Args → Obj).

Lemma no_instances_well_formed : well_formed construct no_instances.
Proof. split; intros *; cbn; by rewrite lookup_empty. Qed.

(** A call with a hashable key answers with the object of the key, builds
    it if the key is new, and keeps every object that exists. *)
Lemma call_effect (k : K) (args : Args) (c : Classes K Obj) :
  well_formed construct c →
  ∃ a, (__call__ construct (Hashable k) args c).1 = Ok a
    ∧ _resource_instances (__call__ construct (Hashable k) args c).2 !! k = Some a
    ∧ well_formed construct (__call__ construct (Hashable k) args c).2
    ∧ (∀ k' a', _resource_instances c !! k' = Some a' →
         _resource_instances (__call__ construct (Hashable k) args c).2 !! k' = Some a')
    ∧ (∀ a' o, objects c !! a' = Some o →
         objects (__call__ construct (Hashable k) args c).2 !! a' = Some o).
Proof.
  intros [Hobj Hinj]. cbn.
  destruct (_resource_instances c !! k) as [a|] eqn:Hk; cbn.
  { exists a. by repeat split. }
  exists (length (objects c)). split; [done|]. split; [by rewrite lookup_insert_eq|].
  assert (Hnew : ∀ k' a', _resource_instances c !! k' = Some a' → a' < length (objects c)).
  { intros k' a' (args' & Ho)%Hobj. by eapply lookup_lt_Some. }
  repeat split; cbn.
  - intros k' a'. rewrite lookup_insert. case_decide as Hkk.
    + intros [= <-]. subst k'. exists args.
      rewrite lookup_app_r by done. by rewrite Nat.sub_diag.
    + intros Hk'. destruct (Hobj _ _ Hk') as (args' & Ho). exists args'.
      by rewrite lookup_app_l by (by eapply lookup_lt_Some).
  - intros k1 k2 a'. rewrite !lookup_insert.
    repeat case_decide; subst; try done.
    + intros [= <-] Hk2%Hnew. lia.
    + intros Hk1%Hnew [= <-]. lia.
    + apply Hinj.
  - intros k' a' Hk'. rewrite lookup_insert_ne; [done|]. intros <-. congruence.
  - intros a' o Ho. by rewrite lookup_app_l by (by eapply lookup_lt_Some).
Qed.

Lemma construct_all_effect (reqs : list (Resource K * Args)) (c : Classes K Obj) :
  well_formed construct c →
  well_formed construct (construct_all construct reqs c).2
  ∧ (∀ k a, _resource_instances c !! k = Some a →
       _resource_instances (construct_all construct reqs c).2 !! k = Some a)
  ∧ (∀ i k args, reqs !! i = Some (Hashable k, args) →
       ∃ a, (construct_all construct reqs c).1 !! i = Some (Ok a)
            ∧ _resource_instances (construct_all construct reqs c).2 !! k = Some a).
Proof.
  revert c. induction reqs as [|[resource args] reqs IH]; intros c Hwf.
  { cbn. split; [done|]. split; [done|]. intros i k args. by rewrite lookup_nil. }
  cbn [construct_all].
  destruct (__call__ construct resource args c) as [r c1] eqn:Hcall.
  assert (Hwf1 : well_formed construct c1
          ∧ ∀ k a, _resource_instances c !! k = Some a →
                   _resource_instances c1 !! k = Some a).
  { destruct resource as [k|].
    - destruct (call_effect k args c Hwf) as (a & _ & _ & ? & ? & _).
      rewrite Hcall in *. by split.
    - cbn in Hcall. injection Hcall as <- <-. by split. }
  destruct Hwf1 as [Hwf1 Hkeep1].
  destruct (IH c1 Hwf1) as (Hwf2 & Hkeep2 & Hres).
  destruct (construct_all construct reqs c1) as [rs c2] eqn:Hrest. cbn [fst snd] in *.
  repeat split; [apply Hwf2..|auto|].
  intros [|i] k args' Hi; cbn in Hi.
  - injection Hi as -> ->.
    destruct (call_effect k args' c Hwf) as (a & Ha & Hka & _).
    rewrite Hcall in *. cbn in Ha, Hka. subst r. exists a. split; [done|auto].
  - apply Hres in Hi as (a & ? & ?). by exists a.
Qed.

(** C6: in a process that constructs instances for hashable resources,
    any two constructions answer with the same instance exactly when their
    resources are equal; the instance of a resource was built for that
    resource; an instance is built by the first construction for its
    resource and by no later one; and whatever a method does to the
    instance of one resource leaves the instance of another resource, hence
    its pools, as it was. *)
Theorem one_client_per_resource
    (reqs : list (Resource K * Args)) (i j : nat) (ki kj : K) (ai aj : Args) :
  reqs !! i = Some (Hashable ki, ai) →
  reqs !! j = Some (Hashable kj, aj) →
  ∃ xi xj argsi argsj,
    (construct_all construct reqs no_instances).1 !! i = Some (Ok xi)
    ∧ (construct_all construct reqs no_instances).1 !! j = Some (Ok xj)
    ∧ (ki = kj ↔ xi = xj)
    ∧ objects (construct_all construct reqs no_instances).2 !! xi
      = Some (construct ki argsi)
    ∧ objects (construct_all construct reqs no_instances).2 !! xj
      = Some (construct kj argsj)
    ∧ (∀ o : Obj,
         xi ≠ xj →
         objects (store xi o (construct_all construct reqs no_instances).2) !! xj
         = Some (construct kj argsj))
    ∧ (∀ c k args,
         _resource_instances c !! k = None →
         __call__ construct (Hashable k) args c
         = (Ok (length (objects c)),
            {| _resource_instances := <[k := length (objects c)]> (_resource_instances c);
               objects := objects c ++ [construct k args] |}))
    ∧ (∀ c k args a,
         _resource_instances c !! k = Some a →
         __call__ construct (Hashable k) args c = (Ok a, c)).
Proof.
  intros Hi Hj.
  destruct (construct_all_effect reqs no_instances no_instances_well_formed)
    as ([Hobj Hinj] & _ & Hres).
  destruct (Hres _ _ _ Hi) as (xi & Hxi & Hki).
  destruct (Hres _ _ _ Hj) as (xj & Hxj & Hkj).
  destruct (Hobj _ _ Hki) as (argsi & Hoi).
  destruct (Hobj _ _ Hkj) as (argsj & Hoj).
  exists xi, xj, argsi, argsj.
  repeat split; try done.
  - intros ->. congruence.
  - intros ->. by eapply Hinj.
  - intros o Hne. cbn. by rewrite list_lookup_insert_ne.
  - intros c k args Hk. cbn. by rewrite Hk.
  - intros c k args a Hk. cbn. by rewrite Hk.
Qed.

End RegistryFacts.

Section Singleton.

Import Registry.

(** A method run on one client leaves every other client as it is. *)
Lemma invoke_other {A} (a b : nat) (method : Eff A) (p : Process) :
  a ≠ b →
  objects (classes (invoke a method p).2) !! b = objects (classes p) !! b.
Proof.
  intros Hab. unfold invoke.
  destruct (objects (classes p) !! a) as [inst|]; [|done].
  destruct (method _) as [r w]. cbn. by rewrite list_lookup_insert_ne.
Qed.

(** A client is built once for its queue, with the arguments of the first
    construction, and is not entered. *)
Example second_construction_builds_nothing :
  new_clients three_constructions no_instances
  = ([Ok 0; Ok 1; Ok 0],
     {| _resource_instances := {[ "https://sqs/replies" := 0; "https://sqs/other" := 1 ]};
        objects := [__init__ "https://sqs/replies" "default" [];
                    __init__ "https://sqs/other" "default" []] |}).
Proof. vm_compute. reflexivity. Qed.

End Singleton.

(** ** The scenarios of the design *)

Section Scenarios.

(** The reply to ["abc123"] is returned and claimed; the flush of the next
    poll cycle deletes it, once. *)
Example abc123_is_returned_then_deleted :
  (status <$> tasks (exec (take 4 abc123_answered) fresh_process)
   = [Returned {| oid := 0; raw := reply_to_abc123 |}])
  ∧ claimed (world (exec (take 4 abc123_answered) fresh_process))
    = [ {| oid := 0; raw := reply_to_abc123 |} ]
  ∧ deleted (calls (world (exec (take 4 abc123_answered) fresh_process))) = []
  ∧ deleted (calls (world (exec abc123_answered fresh_process)))
    = [ {| oid := 0; raw := reply_to_abc123 |} ]
  ∧ claimed (world (exec abc123_answered fresh_process)) = [].
Proof. repeat split; vm_compute; reflexivity. Qed.

(** Both requests get their own reply, whatever the order of arrival. *)
Example out_of_order_replies_resolve :
  status <$> tasks (exec replies_out_of_order fresh_process)
  = [Returned {| oid := 1; raw := reply_to "r1" |};
     Returned {| oid := 0; raw := reply_to "r2" |}].
Proof. vm_compute; reflexivity. Qed.

(** A message that nobody waits for is released and kept in no pool. *)
Example unmatched_message_is_released :
  (_poll_messages default_match_fn (delivers [reply_to "zzz"]) waiting_for_abc123).1 = Ok ()
  ∧ pulled (_poll_messages default_match_fn (delivers [reply_to "zzz"])
              waiting_for_abc123).2 = []
  ∧ claimed (_poll_messages default_match_fn (delivers [reply_to "zzz"])
               waiting_for_abc123).2 = []
  ∧ calls (_poll_messages default_match_fn (delivers [reply_to "zzz"])
             waiting_for_abc123).2
    = [(pull_messages "https://sqs/replies" [("MaxNumberOfMessages", PInt 2)], None);
       (change_message_visibility_batch "https://sqs/replies"
          [ {| oid := 0; raw := reply_to "zzz" |} ] 0, None)].
Proof. repeat split; vm_compute; reflexivity. Qed.

End Scenarios.

(** ** Timeouts *)

Section Timeouts.

(** The deadline of a request changes nothing in the instance. *)
Lemma timeout_keeps_world (t : nat) (s : System) :
  world (step (Timeout t) s) = world s.
Proof.
  cbn. destruct (tasks s !! t) as [task|]; [|done]. by destruct (status task).
Qed.

(** C4: a request that times out is to leave the waiting set without its
    identifier, and later requests untouched.  The request for ["r1"] ends
    with [TimeoutError] and ["r1"] stays in the waiting set; the late reply
    to ["r1"] is then kept in the pulled pool, where nobody claims it, no
    poll cycle pulls any more, and the request for ["r2"] stays suspended
    although its reply is in the queue.  Without the earlier timeout the
    same request gets its reply. *)
Theorem timeout_keeps_identifier_registered :
  status <$> tasks (exec r1_times_out fresh_process) = [Raised TimeoutError]
  ∧ waiting (world (exec r1_times_out fresh_process)) = {["r1"]}
  ∧ status <$> tasks (exec (r1_times_out ++ r2_after_late_reply) fresh_process)
    = [Raised TimeoutError; Suspended]
  ∧ pulled (world (exec (r1_times_out ++ r2_after_late_reply) fresh_process))
    = [{| oid := 0; raw := reply_to "r1" |}]
  ∧ status <$> tasks (exec r2_alone fresh_process)
    = [Returned {| oid := 1; raw := reply_to "r2" |}].
Proof. repeat split; vm_compute; reflexivity. Qed.

End Timeouts.

(** ** The theorems at work on concrete inputs *)

Section Witnesses.

Import Registry.




Lemma poll_with_pulled_messages_is_noop_witness :
  entered (self holding_replies) = Some three_pulled
  ∧ _inqueue_messages three_pulled ≠ []
  ∧ _poll_messages default_match_fn (delivers mixed_batch) holding_replies
    = (Ok (), holding_replies).
Proof.
  split; [reflexivity|]. split; [discriminate|].
  apply (poll_with_pulled_messages_is_noop _ _ _ three_pulled); [reflexivity|discriminate].
Defined.

Lemma first_match_wins_witness :
  entered (self holding_replies) = Some three_pulled
  ∧ _inqueue_messages three_pulled
    = [ {| oid := 0; raw := reply_to "r2" |} ]
      ++ {| oid := 1; raw := reply_to "r1" |} :: [ {| oid := 2; raw := reply_to "r1" |} ]
  ∧ (∀ x, x ∈ [ {| oid := 0; raw := reply_to "r2" |} ] →
          default_match_fn "r1" (raw x) = Ok false)
  ∧ default_match_fn "r1" (reply_to "r1") = Ok true
  ∧ "r1" ∈ _waiting_for_polling three_pulled
  ∧ (scan default_match_fn "r1" holding_replies).1
    = Ok (Some {| oid := 1; raw := reply_to "r1" |}).
Proof.
  assert (Hpre : ∀ x, x ∈ [ {| oid := 0; raw := reply_to "r2" |} ] →
                      default_match_fn "r1" (raw x) = Ok false).
  { intros x ->%list_elem_of_singleton. vm_compute. reflexivity. }
  assert (Hm : default_match_fn "r1" (reply_to "r1") = Ok true)
    by (vm_compute; reflexivity).
  assert (Hin : "r1" ∈ _waiting_for_polling three_pulled)
    by (cbn; set_solver).
  repeat (split; [done|]).
  destruct (first_match_wins default_match_fn "r1"
              [ {| oid := 0; raw := reply_to "r2" |} ]
              [ {| oid := 2; raw := reply_to "r1" |} ]
              {| oid := 1; raw := reply_to "r1" |}
              holding_replies three_pulled eq_refl eq_refl Hpre Hm Hin) as [-> _].
  reflexivity.
Defined.

Lemma one_client_per_resource_witness :
  three_constructions !! 0 = Some (Hashable "https://sqs/replies", ("default", []))
  ∧ three_constructions !! 2 = Some (Hashable "https://sqs/replies", ("staging", []))
  ∧ ∃ x, (new_clients three_constructions no_instances).1 !! 0 = Some (Ok x)
         ∧ (new_clients three_constructions no_instances).1 !! 2 = Some (Ok x).
Proof.
  split; [reflexivity|]. split; [reflexivity|].
  destruct (one_client_per_resource
              (λ sqs_url args, __init__ sqs_url args.1 args.2)
              three_constructions 0 2
              "https://sqs/replies" "https://sqs/replies"
              ("default", []) ("staging", []) eq_refl eq_refl)
    as (xi & xj & _ & _ & Hi & Hj & Hsame & _).
  exists xi. split; [exact Hi|].
  destruct Hsame as [Hsame _]. rewrite (Hsame eq_refl). exact Hj.
Defined.

End Witnesses.

(** * Further properties *)

(** ** [SqsClient.delete_messages] *)

Section DeleteBatches.

Import Sqs.
Local Open Scope nat_scope.

Implicit Types (client : BatchClient) (msgs remained : list PyDict)
  (sent extra : list (list PyDict)).

Lemma entries_length msgs es : entries msgs = Ok es → length es = length msgs.
Proof.
  revert es. induction msgs as [|m msgs IH]; intros es; cbn.
  { by intros [= <-]. }
  destruct (entry m); cbn; [|done].
  destruct (entries msgs); cbn; [|done].
  intros [= <-]. cbn. f_equal. by apply IH.
Qed.

Lemma entries_app msgs1 msgs2 es1 es2 :
  entries msgs1 = Ok es1 → entries msgs2 = Ok es2 →
  entries (msgs1 ++ msgs2) = Ok (es1 ++ es2).
Proof.
  revert es1. induction msgs1 as [|m msgs1 IH]; intros es1; cbn.
  { by intros [= <-]. }
  destruct (entry m); cbn; [|done].
  destruct (entries msgs1) as [es|]; cbn; [|done].
  intros [= <-] H2. by rewrite (IH es eq_refl H2).
Qed.

Lemma entries_take msgs es (k : nat) :
  entries msgs = Ok es → entries (take k msgs) = Ok (take k es).
Proof.
  revert es k. induction msgs as [|m msgs IH]; intros es k; cbn.
  { intros [= <-]. by destruct k. }
  destruct (entry m) eqn:Hm; cbn; [|done].
  destruct (entries msgs) as [es'|]; cbn; [|done].
  intros [= <-]. destruct k; cbn; [done|].
  by rewrite Hm, (IH es' k eq_refl).
Qed.

Lemma entries_drop msgs es (k : nat) :
  entries msgs = Ok es → entries (drop k msgs) = Ok (drop k es).
Proof.
  revert es k. induction msgs as [|m msgs IH]; intros es k; cbn.
  { intros [= <-]. by destruct k. }
  destruct (entry m) eqn:Hm; cbn; [|done].
  destruct (entries msgs) as [es'|] eqn:Hes; cbn; [|done].
  intros [= <-]. destruct k; cbn; [by rewrite Hm, Hes|].
  by apply IH.
Qed.

(** The leading part that the first batch takes. *)
Lemma take_first_batch {A} (l : list A) (m : nat) :
  take 10 l ++ take m (drop 10 l) = take (length (take 10 l) + m) l.
Proof.
  destruct (decide (10 ≤ length l)) as [Hlen|Hlen].
  - rewrite length_take_le by done. apply take_take_drop.
  - rewrite (drop_ge l 10), take_nil, app_nil_r by lia.
    rewrite (take_ge l 10) by lia. symmetry. apply take_ge. lia.
Qed.

(** Whatever the client answers and whatever the messages hold: the
    batches sent have between 1 and 10 entries, and together they are the
    entries of a leading part of the messages, in order; when the loop ends
    without an exception, of all messages. *)
Lemma delete_loop_sent (fuel : nat) client remained (n : nat)
    (successful failed : list PyVal) sent r sent' :
  length remained ≤ fuel →
  delete_loop fuel client remained n successful failed sent = (r, sent') →
  ∃ extra m,
    sent' = sent ++ extra
    ∧ Forall (λ batch, 1 ≤ length batch ≤ 10) extra
    ∧ m ≤ length remained
    ∧ entries (take m remained) = Ok (concat extra)
    ∧ (raises r = false → m = length remained).
Proof.
  revert remained n successful failed sent r sent'.
  induction fuel as [|fuel IH];
    intros remained n successful failed sent r sent' Hfuel Hrun.
  { destruct remained; [|cbn in Hfuel; lia]. cbn in Hrun. injection Hrun as <- <-.
    exists [], 0. rewrite app_nil_r. by repeat (split; [done|]). }
  destruct remained as [|x remained]; cbn [delete_loop] in Hrun.
  { injection Hrun as <- <-. exists [], 0. rewrite app_nil_r.
    by repeat (split; [done|]). }
  set (rem := x :: remained) in *.
  destruct (entries (take 10 rem)) as [batch|e] eqn:Hbatch.
  2:{ injection Hrun as <- <-. exists [], 0. rewrite app_nil_r.
      split; [done|]. split; [done|]. split; [lia|]. by split. }
  assert (Hlen : length batch = length (take 10 rem)) by by apply entries_length.
  assert (Hbound : 1 ≤ length batch ≤ 10).
  { rewrite Hlen, length_take. unfold rem. cbn [length]. lia. }
  assert (Hstop : ∀ e, r = Raise e → sent' = sent ++ [batch] →
    ∃ extra m, sent' = sent ++ extra
      ∧ Forall (λ batch, 1 ≤ length batch ≤ 10) extra
      ∧ m ≤ length rem ∧ entries (take m rem) = Ok (concat extra)
      ∧ (raises r = false → m = length rem)).
  { intros e -> ->. exists [batch], (length (take 10 rem)).
    split; [done|]. split; [by apply Forall_singleton|].
    split; [rewrite length_take; lia|]. split; [|done].
    cbn [concat]. rewrite app_nil_r. rewrite <- Hbatch. f_equal.
    pose proof (take_first_batch rem 0) as Ht.
    rewrite take_0, app_nil_r, Nat.add_0_r in Ht. by rewrite <- Ht. }
  destruct (client n batch) as [res|e]; [|injection Hrun as <- <-; by eapply Hstop].
  destruct (member (Successful res)) as [s|e]; [|injection Hrun as <- <-; by eapply Hstop].
  destruct (member (Failed res)) as [f|e]; [|injection Hrun as <- <-; by eapply Hstop].
  clear Hstop. apply IH in Hrun as (extra & m & -> & Hall & Hm & Hent & Hok).
  2:{ rewrite length_drop. unfold rem in *. cbn [length] in *. lia. }
  exists (batch :: extra), (length (take 10 rem) + m).
  rewrite length_drop in Hm, Hok.
  split; [by rewrite <- app_assoc|]. split; [by constructor|].
  split; [rewrite length_take; lia|]. split.
  - rewrite <- take_first_batch. cbn [concat]. by apply entries_app.
  - intros Hr. rewrite (Hok Hr), length_take. lia.
Qed.

(** The loop against a client that answers completely, on messages that
    all have a receipt handle. *)
Lemma delete_loop_complete (fuel : nat) client remained es (n : nat)
    (successful failed : list PyVal) sent :
  length remained ≤ fuel →
  entries remained = Ok es →
  complete client →
  ∃ extra,
    delete_loop fuel client remained n successful failed sent
    = (Ok (successful ++ concat (imap (λ i batch,
                     match client (n + i) batch with
                     | Ok res => match Successful res with Some l => l | None => [] end
                     | Raise _ => []
                     end) extra),
           failed ++ concat (imap (λ i batch,
                     match client (n + i) batch with
                     | Ok res => match Failed res with Some l => l | None => [] end
                     | Raise _ => []
                     end) extra)),
       sent ++ extra)
    ∧ concat extra = es
    ∧ length extra = (length remained + 9) / 10
    ∧ (∀ i batch, extra !! i = Some batch → S i < length extra → length batch = 10).
Proof.
  intros Hfuel Hes Hclient.
  revert remained es n successful failed sent Hfuel Hes.
  induction fuel as [|fuel IH]; intros remained es n successful failed sent Hfuel Hes.
  { destruct remained; [|cbn in Hfuel; lia]. cbn in Hes. injection Hes as <-.
    exists []. cbn. rewrite !app_nil_r.
    split; [done|]. split; [done|]. split; [done|]. intros i b. by rewrite lookup_nil. }
  destruct remained as [|x remained]; cbn [delete_loop].
  { cbn in Hes. injection Hes as <-.
    exists []. cbn. rewrite !app_nil_r.
    split; [done|]. split; [done|]. split; [done|]. intros i b. by rewrite lookup_nil. }
  set (rem := x :: remained) in *.
  assert (Hrem : 1 ≤ length rem) by (unfold rem; cbn; lia).
  assert (Hlen : length es = length rem) by by apply entries_length.
  rewrite (entries_take rem es 10 Hes).
  destruct (Hclient n (take 10 es)) as (s & f & Hres). rewrite Hres. cbn [member Successful Failed].
  destruct (IH (drop 10 rem) (drop 10 es) (S n) (successful ++ s) (failed ++ f)
              (sent ++ [take 10 es])) as (extra & -> & Hcat & Hcount & Hfull).
  { rewrite length_drop. lia. }
  { by apply entries_drop. }
  rewrite length_drop in Hcount.
  exists (take 10 es :: extra). rewrite !imap_cons. cbn [concat].
  rewrite Nat.add_0_r, Hres. cbn [Successful Failed].
  split; [|split; [|split]].
  - assert (Hshift : ∀ sel : BatchResponse → option (list PyVal),
      imap ((λ i b, match client (n + i) b with
                    | Ok res => match sel res with Some l => l | None => [] end
                    | Raise _ => []
                    end) ∘ S) extra
      = imap (λ i b, match client (S n + i) b with
                     | Ok res => match sel res with Some l => l | None => [] end
                     | Raise _ => []
                     end) extra).
    { intros sel. apply imap_ext. intros i b _. cbn.
      by replace (n + S i) with (S (n + i)) by lia. }
    rewrite (Hshift Successful), (Hshift Failed), <- !app_assoc. done.
  - by rewrite Hcat, take_drop.
  - cbn [length]. rewrite Hcount.
    destruct (decide (10 ≤ length rem)).
    + replace (length rem + 9) with ((length rem - 10 + 9) + 1 * 10) by lia.
      rewrite Nat.div_add by lia. lia.
    + replace (length rem - 10 + 9) with 9 by lia.
      rewrite (Nat.div_small 9 10) by lia.
      apply (Nat.div_unique _ 10 1 (length rem - 1)); lia.
  - intros [|i] batch; cbn [lookup list_lookup length].
    + intros [= <-] Hlt.
      assert (Hmore : extra ≠ []) by (intros ->; cbn in Hlt; lia).
      rewrite length_take.
      destruct (decide (10 < length es)) as [|Hshort]; [lia|].
      destruct Hmore. apply length_zero_iff_nil.
      rewrite Hcount. replace (length rem - 10 + 9) with 9 by lia.
      by rewrite (Nat.div_small 9 10) by lia.
    + intros Hi Hlt. apply (Hfull i); [done|lia].
Qed.

Lemma entries_raise (pre rest : list PyDict) (bad : PyDict) es :
  entries pre = Ok es → dict_lookup "ReceiptHandle" bad = None →
  entries (pre ++ bad :: rest) = Raise KeyError.
Proof.
  revert es. induction pre as [|m pre IH]; intros es; cbn.
  { intros _ Hbad. unfold entry. by rewrite Hbad. }
  destruct (entry m); cbn; [|done].
  destruct (entries pre) as [es'|]; cbn; [|done].
  intros _ Hbad. by rewrite (IH es' eq_refl Hbad).
Qed.

Lemma delete_loop_step (fuel : nat) client remained (n : nat)
    (successful failed : list PyVal) sent :
  remained ≠ [] →
  delete_loop (S fuel) client remained n successful failed sent
  = match entries (take 10 remained) with
    | Raise e => (Raise e, sent)
    | Ok batch =>
        match client n batch with
        | Raise e => (Raise e, sent ++ [batch])
        | Ok res =>
            match member (Successful res) with
            | Raise e => (Raise e, sent ++ [batch])
            | Ok s =>
                match member (Failed res) with
                | Raise e => (Raise e, sent ++ [batch])
                | Ok f =>
                    delete_loop fuel client (drop 10 remained) (S n)
                      (successful ++ s) (failed ++ f) (sent ++ [batch])
                end
            end
        end
    end.
Proof. by destruct remained. Qed.

Lemma delete_loop_missing (fuel : nat) client (pre post : list PyDict) (bad : PyDict) es
    (n : nat) (successful failed : list PyVal) sent :
  length (pre ++ bad :: post) ≤ fuel →
  entries pre = Ok es →
  dict_lookup "ReceiptHandle" bad = None →
  complete client →
  ∃ extra,
    delete_loop fuel client (pre ++ bad :: post) n successful failed sent
    = (Raise KeyError, sent ++ extra)
    ∧ concat extra = take (10 * (length pre / 10)) es.
Proof.
  intros Hfuel Hes Hbad Hclient.
  revert pre es n successful failed sent Hfuel Hes.
  induction fuel as [|fuel IH]; intros pre es n successful failed sent Hfuel Hes.
  { rewrite length_app in Hfuel. cbn in Hfuel. lia. }
  assert (Hlen : length es = length pre) by by apply entries_length.
  rewrite delete_loop_step by by destruct pre.
  destruct (decide (10 ≤ length pre)) as [Hlong|Hshort].
  - rewrite take_app_le by done.
    rewrite (entries_take pre es 10 Hes).
    destruct (Hclient n (take 10 es)) as (s & f & Hres). rewrite Hres.
    cbn [member Successful Failed].
    rewrite drop_app_le by done.
    destruct (IH (drop 10 pre) (drop 10 es) (S n) (successful ++ s) (failed ++ f)
                (sent ++ [take 10 es])) as (extra & -> & Hcat).
    { rewrite length_app in *. rewrite length_drop. cbn [length] in *. lia. }
    { by apply entries_drop. }
    exists (take 10 es :: extra). split; [by rewrite <- app_assoc|].
    cbn [concat]. rewrite Hcat, length_drop, take_take_drop. f_equal.
    replace (length pre) with ((length pre - 10) + 1 * 10) at 2 by lia.
    rewrite Nat.div_add by lia. lia.
  - replace (take 10 (pre ++ bad :: post))
      with (pre ++ bad :: take (10 - S (length pre)) post).
    2:{ rewrite take_app_ge by lia.
        replace (10 - length pre) with (S (10 - S (length pre))) by lia. done. }
    rewrite (entries_raise pre _ bad es Hes Hbad).
    exists []. rewrite app_nil_r. split; [done|].
    rewrite Nat.div_small by lia. by rewrite Nat.mul_0_r, take_0.
Qed.

(** X1: whatever the client answers and whatever the messages hold, every
    batch that [delete_messages] sends has between 1 and 10 entries, and
    the batches together are, in order, the entries of a leading part of
    the messages, each message once; unless the call raises, of all the
    messages. *)
Theorem delete_messages_batches client msgs :
  Forall (λ batch, 1 ≤ length batch ≤ 10) (delete_messages client msgs).2
  ∧ ∃ m, m ≤ length msgs
      ∧ entries (take m msgs) = Ok (concat (delete_messages client msgs).2)
      ∧ (m = length msgs ∨ raises (delete_messages client msgs).1 = true).
Proof.
  unfold delete_messages.
  destruct (delete_loop (length msgs) client msgs 0 [] [] []) as [r sent] eqn:Hrun.
  apply delete_loop_sent in Hrun as (extra & m & -> & Hall & Hm & Hent & Hok); [|done].
  cbn. split; [done|]. exists m. split; [done|]. split; [done|].
  destruct r; cbn in *; [left; by apply Hok|by right].
Qed.

(** X2: when every message has a receipt handle and the client answers
    every call with both members, [delete_messages] returns; it has sent
    the entries of all messages in order, in ceil(n/10) batches of which
    all but the last hold exactly 10, and its result joins the answers of
    the calls in order. *)
Theorem delete_messages_complete client msgs es :
  entries msgs = Ok es →
  complete client →
  ∃ sent,
    delete_messages client msgs
    = (Ok (answered client Successful sent, answered client Failed sent), sent)
    ∧ concat sent = es
    ∧ length sent = (length msgs + 9) / 10
    ∧ (∀ i batch, sent !! i = Some batch → S i < length sent → length batch = 10).
Proof.
  intros Hes Hclient.
  destruct (delete_loop_complete (length msgs) client msgs es 0 [] [] []
              (le_n _) Hes Hclient) as (sent & Hrun & Hrest).
  exists sent. split; [|done]. exact Hrun.
Qed.

(** X3: when the first message without a receipt handle comes after [k]
    messages that have one, and the client answers completely,
    [delete_messages] raises [KeyError]; before that it has sent the
    batches of the first [10 * (k / 10)] messages: the full batches before
    the one that holds the message, and nothing of that one. *)
Theorem delete_messages_missing_handle client (pre post : list PyDict) (bad : PyDict) es :
  entries pre = Ok es →
  dict_lookup "ReceiptHandle" bad = None →
  complete client →
  (delete_messages client (pre ++ bad :: post)).1 = Raise KeyError
  ∧ concat (delete_messages client (pre ++ bad :: post)).2
    = take (10 * (length pre / 10)) es.
Proof.
  intros Hes Hbad Hclient. unfold delete_messages.
  destruct (delete_loop_missing (length (pre ++ bad :: post)) client pre post bad es
              0 [] [] [] (le_n _) Hes Hbad Hclient) as (extra & -> & Hcat).
  done.
Qed.

End DeleteBatches.

(** ** The first interface *)

Section FirstInterface.

Import Agent.
Local Open Scope nat_scope.

(** X4: [SnQueue.retrieve] never returns and never reaches the queue.
    When the session and the client open, [pull_messages] raises
    [TypeError] at [*self.sqs_args] before [receive_message] is called, for
    the default arguments and for any given ones, with and without
    [delete]; the client is closed and the exception raised, or the
    exception of [close] in its place.  No message is received or
    deleted. *)
Theorem retrieve_never_returns (boto : Boto3) (profile_name sqs_url : string)
    (delete : bool) (sqs_args : option SqsArgs) :
  retrieve boto profile_name sqs_url delete sqs_args
  = match on_session boto profile_name with
    | Some e => (Raise e, [Session profile_name])
    | None =>
        match on_client boto "sqs" with
        | Some e => (Raise e, [Session profile_name; client "sqs"])
        | None =>
            (Raise (match on_close boto with Some e => e | None => TypeError end),
             [Session profile_name; client "sqs"; close])
        end
    end.
Proof.
  unfold retrieve, __enter__, andthen, op. cbn.
  destruct (on_session boto profile_name); cbn; [done|].
  destruct (on_client boto "sqs"); cbn; [done|].
  unfold retrieve_body, pull_messages, andthen, the_client, star. cbn.
  unfold __exit__, andthen, the_client, op. cbn.
  by destruct (on_close boto).
Qed.

Lemma delete_each_effect (boto : Boto3) (messages : list PyVal) (n : nat)
    (agent : SqsAgent) (trace : list Op) :
  has_client agent = true →
  (∀ k url handle, on_delete boto k url handle = None) →
  ∃ r, delete_each boto messages n (agent, trace)
       = (r, (agent, trace ++ (delete_message (sqs_url agent) <$> leading_handles messages)))
     ∧ (r = Ok () ∧ length (leading_handles messages) = length messages
        ∨ ∃ msg e, messages !! length (leading_handles messages) = Some msg
                   ∧ receipt_handle msg = Raise e ∧ r = Raise e).
Proof.
  intros Hclient Hdelete. revert n trace.
  induction messages as [|msg messages IH]; intros n trace.
  { exists (Ok ()). cbn. rewrite app_nil_r. split; [done|]. by left. }
  cbn [delete_each leading_handles]. unfold andthen at 1, the_client at 1. cbn [fst].
  rewrite Hclient. unfold andthen at 1. cbn [fst]. unfold andthen at 1.
  destruct (receipt_handle msg) as [handle|e] eqn:Hh.
  - unfold andthen at 1, op at 1. rewrite Hdelete. cbn [fst snd].
    destruct (IH (S n) (trace ++ [delete_message (sqs_url agent) handle]))
      as (r & -> & Hr).
    exists r. split; [by rewrite <- app_assoc|].
    destruct Hr as [[-> Hlen]|(m & e & Hm & He & ->)].
    + left. split; [done|]. cbn. by rewrite Hlen.
    + right. by exists m, e.
  - exists (Raise e). cbn. rewrite app_nil_r. split; [done|].
    right. by exists msg, e.
Qed.

(** X5: on an agent that has its client, against a queue that accepts
    every deletion, [SqsAgent.delete_messages] deletes the messages one by
    one in order, up to the first message whose receipt handle cannot be
    read; it returns the number of messages given when there is no such
    message, and raises the exception of that message otherwise, after the
    deletions before it. *)
Theorem agent_delete_messages_prefix (boto : Boto3) (messages : list PyVal)
    (agent : SqsAgent) (trace : list Op) :
  has_client agent = true →
  (∀ k url handle, on_delete boto k url handle = None) →
  ∃ r, Agent.delete_messages boto messages (agent, trace)
       = (r, (agent, trace ++ (delete_message (sqs_url agent) <$> leading_handles messages)))
     ∧ (r = Ok (length messages) ∧ length (leading_handles messages) = length messages
        ∨ ∃ msg e, messages !! length (leading_handles messages) = Some msg
                   ∧ receipt_handle msg = Raise e ∧ r = Raise e).
Proof.
  intros Hclient Hdelete. unfold Agent.delete_messages, andthen. cbn [snd].
  destruct (delete_each_effect boto messages (length trace) agent trace Hclient Hdelete)
    as (r & -> & Hr).
  destruct Hr as [[-> Hlen]|(m & e & Hm & He & ->)].
  - exists (Ok (length messages)). split; [done|]. by left.
  - exists (Raise e). split; [done|]. right. by exists m, e.
Qed.

End FirstInterface.

(** ** More on the requests of one instance *)

Section Requests.

Local Open Scope nat_scope.
Implicit Types (w : World) (s : System) (p : Pools) (fn : MatchFn) (sqs : Transport).

(** A scan returns only a message of the pool that the matcher accepted
    for the identifier. *)
Lemma scan_from_returns_match fn (message_id : string) (queue rest : list Message)
    (i : nat) w (m : Message) w' :
  scan_from fn message_id queue rest i w = (Ok (Some m), w') →
  fn message_id (raw m) = Ok true ∧ m ∈ rest.
Proof.
  revert i. induction rest as [|x rest IH]; intros i Hrun; [done|].
  cbn [scan_from] in Hrun. unfold bind at 1, lift in Hrun.
  destruct (fn message_id (raw x)) as [[]|e] eqn:Hx; [| |done].
  - unfold bind, update, remove_waiting, attr, ret, raise in Hrun.
    destruct (entered (self w)); cbn in Hrun; [|done].
    case_decide; [|done]. injection Hrun as <- _. split; [done|by left].
  - apply IH in Hrun as [? ?]. split; [done|by right].
Qed.

Lemma scan_returns_match fn (message_id : string) w (m : Message) w' :
  scan fn message_id w = (Ok (Some m), w') →
  fn message_id (raw m) = Ok true ∧ m ∈ pulled w.
Proof.
  unfold scan, bind, attr, pulled.
  destruct (entered (self w)); [|done]. apply scan_from_returns_match.
Qed.

Lemma begin_returns_match fn (message_id : string) w (m : Message) w' :
  _get_response_begin message_id fn w = (Ok (Some m), w') →
  fn message_id (raw m) = Ok true.
Proof.
  unfold _get_response_begin. unfold bind at 1, update at 1.
  destruct (entered (self w)); [|done].
  by intros [? _]%scan_returns_match.
Qed.

Lemma resume_returns_match fn (message_id : string) sqs w (m : Message) w' :
  _get_response_resume message_id fn sqs w = (Ok (Some m), w') →
  fn message_id (raw m) = Ok true.
Proof.
  unfold _get_response_resume. unfold bind at 1.
  destruct (_poll_messages fn sqs w) as [[[]|e] w1]; [|done].
  by intros [? _]%scan_returns_match.
Qed.

Lemma accepted_step (ev : Event) s :
  Forall accepted (tasks s) → Forall accepted (tasks (step ev s)).
Proof.
  intros Hok. destruct ev as [id fn|t sqs|t| |sqs]; cbn [step]; [| | |done..].
  - cbn. apply Forall_app. split; [done|]. by apply Forall_singleton.
  - destruct (tasks s !! t) as [task|] eqn:Ht; [|done].
    destruct (status task) eqn:Hst; [| |done..]; unfold run_piece.
    + destruct (_get_response_begin _ _ _) as [r w'] eqn:Hrun. cbn.
      apply Forall_insert; [done|]. destruct r as [[m|]|e]; [|done..].
      by eapply begin_returns_match.
    + destruct (_get_response_resume _ _ _ _) as [r w'] eqn:Hrun. cbn.
      apply Forall_insert; [done|]. destruct r as [[m|]|e]; [|done..].
      by eapply resume_returns_match.
  - destruct (tasks s !! t) as [task|] eqn:Ht; [|done].
    destruct (status task) eqn:Hst; [| |done..]; cbn; by apply Forall_insert.
Qed.

Lemma accepted_exec (evs : list Event) s :
  Forall accepted (tasks s) → Forall accepted (tasks (exec evs s)).
Proof.
  revert s. induction evs as [|ev evs IH]; intros s Hok; [done|].
  cbn. by apply IH, accepted_step.
Qed.

(** X6: over every interleaving of requests, runs, timeouts and context
    entries and exits, a request only ever returns a message that its own
    matcher accepted for its own identifier. *)
Theorem reply_was_matched
    (sqs_url aws_profile_name : string) (sqs_config : PyDict) (evs : list Event) :
  Forall accepted (tasks (exec evs (boot sqs_url aws_profile_name sqs_config))).
Proof. apply accepted_exec. constructor. Qed.

(** *** A poll cycle whose matcher answers *)

(** X7: a poll cycle on an entered instance with an empty pulled pool,
    that reaches the transport, whose deletion and pull return and whose
    matcher answers for every pulled message, calls the transport in this
    order and no more: one [delete_messages] with the whole claimed pool if
    that is not empty, one [pull_messages] with the address and the
    arguments of the instance, and one [change_message_visibility_batch]
    with timeout zero for the unmatched messages if there are any, whether
    that returns or raises.  The claimed pool is left empty and the waiting
    set as it was. *)
Theorem poll_cycle_calls fn sqs (response : list PyDict) w p :
  entered (self w) = Some p →
  _inqueue_messages p = [] →
  enters sqs = None →
  deleting sqs (_processed_messages p) = None →
  pulling sqs (_sqs_url (self w)) (_sqs_args (self w)) = Ok response →
  (∀ id r, id ∈ _waiting_for_polling p → r ∈ response → raises (fn id r) = false) →
  calls (_poll_messages fn sqs w).2
  = calls w
    ++ (if nonempty (_processed_messages p)
        then [(delete_messages (_sqs_url (self w)) (_processed_messages p), None)]
        else [])
    ++ [(pull_messages (_sqs_url (self w)) (_sqs_args (self w)), None)]
    ++ (if nonempty (filter (λ m, matches_some fn (_waiting_for_polling p) m = false)
                       (fresh w response))
        then [(change_message_visibility_batch (_sqs_url (self w))
                 (filter (λ m, matches_some fn (_waiting_for_polling p) m = false)
                    (fresh w response)) 0, releases sqs)]
        else [])
  ∧ claimed (_poll_messages fn sqs w).2 = []
  ∧ waiting (_poll_messages fn sqs w).2 = _waiting_for_polling p.
Proof.
  intros He Hempty Henter Hdel Hpull Hok.
  destruct (poll_total fn sqs response w p He Hempty Henter Hdel Hpull Hok)
    as (w' & -> & He' & Hcalls & _).
  cbn [snd]. unfold claimed, waiting. by rewrite He'.
Qed.

(** The first message of a list that the matcher accepts. *)
Lemma first_accepted fn (message_id : string) (l : list Message) (x : Message) :
  (∀ y, y ∈ l → raises (fn message_id (raw y)) = false) →
  x ∈ l → fn message_id (raw x) = Ok true →
  ∃ pre m post, l = pre ++ m :: post
    ∧ (∀ y, y ∈ pre → fn message_id (raw y) = Ok false)
    ∧ fn message_id (raw m) = Ok true.
Proof.
  induction l as [|a l IH]; intros Hok Hx Hacc; [by apply elem_of_nil in Hx|].
  destruct (fn message_id (raw a)) as [[]|e] eqn:Ha.
  - exists [], a, l. split; [done|]. split; [|done]. intros y Hy. by apply elem_of_nil in Hy.
  - apply elem_of_cons in Hx as [->|Hx]; [congruence|].
    destruct IH as (pre & m & post & -> & Hpre & Hm); [|done..|].
    { intros y Hy. apply Hok. by right. }
    exists (a :: pre), m, post. split; [done|]. split; [|done].
    intros y [->|Hy]%elem_of_cons; [done|by apply Hpre].
  - specialize (Hok a ltac:(left)). by rewrite Ha in Hok.
Qed.

(** X8: a suspended request that is registered, on an instance with an
    empty pulled pool, is resumed; every call of the transport returns,
    the queue delivers a batch that holds a message that its matcher
    accepts for its identifier, and the matcher answers for every pulled
    message and every identifier waited for.  Then the request returns in
    this piece, with a message of the batch that the matcher accepts for
    it; that message is the claimed pool, and the identifier is no longer
    waited for. *)
Theorem delivered_reply_is_returned fn (message_id : string) sqs
    (response : list PyDict) (r0 : PyDict) w p :
  entered (self w) = Some p →
  _inqueue_messages p = [] →
  message_id ∈ _waiting_for_polling p →
  enters sqs = None →
  deleting sqs (_processed_messages p) = None →
  pulling sqs (_sqs_url (self w)) (_sqs_args (self w)) = Ok response →
  releases sqs = None →
  exits sqs = None →
  (∀ id r, id ∈ _waiting_for_polling p → r ∈ response → raises (fn id r) = false) →
  r0 ∈ response →
  fn message_id r0 = Ok true →
  ∃ m, (_get_response_resume message_id fn sqs w).1 = Ok (Some m)
    ∧ fn message_id (raw m) = Ok true
    ∧ raw m ∈ response
    ∧ claimed (_get_response_resume message_id fn sqs w).2 = [m]
    ∧ waiting (_get_response_resume message_id fn sqs w).2
      = _waiting_for_polling p ∖ {[message_id]}.
Proof.
  intros He Hempty Hin Henter Hdel Hpull Hrel Hexit Hok Hr0 Hacc.
  destruct (poll_total fn sqs response w p He Hempty Henter Hdel Hpull Hok)
    as (w' & Hpoll & He' & _).
  rewrite Hrel, Hexit in Hpoll.
  assert (Hpoll' : _poll_messages fn sqs w = (Ok (), w'))
    by (rewrite Hpoll; by destruct (nonempty _)).
  unfold _get_response_resume, bind. rewrite Hpoll'.
  set (pooled := filter (λ m, matches_some fn (_waiting_for_polling p) m = true)
                   (fresh w response)) in *.
  assert (Hpooled : ∀ y, y ∈ pooled → raw y ∈ response).
  { intros y [_ Hy]%list_elem_of_filter. by apply elem_of_fresh in Hy as [? _]. }
  assert (Hsome : ∃ x, x ∈ pooled ∧ fn message_id (raw x) = Ok true).
  { apply list_elem_of_lookup in Hr0 as [i Hi].
    exists {| oid := next_oid w + i; raw := r0 |}. split; [|done].
    apply list_elem_of_filter. split.
    - unfold matches_some. apply existsb_exists. exists message_id.
      split; [by apply list_elem_of_In, elem_of_elements|]. cbn. by rewrite Hacc.
    - unfold fresh. apply elem_of_lookup_imap. by exists i, r0. }
  destruct Hsome as (x & Hx & Hxacc).
  destruct (first_accepted fn message_id pooled x) as (pre & m & post & Hsplit & Hpre & Hm);
    [|done..|].
  { intros y Hy. apply Hok; [done|by apply Hpooled]. }
  assert (Hscan : scan fn message_id w'
    = (Ok (Some m),
       set_entered {| _inqueue_messages := pre ++ post;
                      _processed_messages := [m];
                      _waiting_for_polling := _waiting_for_polling p ∖ {[message_id]} |} w')).
  { unfold scan, bind, attr. rewrite He'. cbn [_inqueue_messages]. rewrite Hsplit.
    rewrite Hsplit in He'.
    exact (scan_from_first_match fn message_id [] pre post m w' _ He' Hpre Hm Hin). }
  rewrite Hscan. exists m. cbn [fst snd].
  split; [done|]. split; [done|]. split; [|done].
  apply Hpooled. rewrite Hsplit. apply elem_of_app. right. by left.
Qed.

(** X9: a poll cycle on an entered instance with an empty pulled pool, on
    a transport whose calls all return, that still ends with an exception
    (its matcher raised) has flushed the claimed pool and pulled the batch,
    and has released nothing: there is no visibility change, also not for
    the messages it had found unmatched before the exception.  The
    messages it had matched before stay in the pulled pool. *)
Theorem aborted_poll_releases_nothing fn sqs (response : list PyDict) w p (e : Exn) :
  entered (self w) = Some p →
  _inqueue_messages p = [] →
  enters sqs = None →
  deleting sqs (_processed_messages p) = None →
  pulling sqs (_sqs_url (self w)) (_sqs_args (self w)) = Ok response →
  releases sqs = None →
  exits sqs = None →
  (_poll_messages fn sqs w).1 = Raise e →
  calls (_poll_messages fn sqs w).2
  = calls w
    ++ (if nonempty (_processed_messages p)
        then [(delete_messages (_sqs_url (self w)) (_processed_messages p), None)]
        else [])
    ++ [(pull_messages (_sqs_url (self w)) (_sqs_args (self w)), None)]
  ∧ claimed (_poll_messages fn sqs w).2 = []
  ∧ pulled (_poll_messages fn sqs w).2 `sublist_of` fresh w response.
Proof.
  intros He Hempty Henter Hdel Hpull Hrel Hexit.
  destruct (_poll_messages fn sqs w) as [r w'] eqn:Hrun. cbn [fst snd]. intros ->.
  unfold _poll_messages in Hrun. unfold bind at 1, attr at 1 in Hrun.
  rewrite He, Hempty in Hrun. cbn [nonempty] in Hrun.
  unfold with_SqsClient in Hrun. rewrite Henter, Hexit in Hrun.
  destruct (poll_block fn sqs w) as [r0 w0] eqn:Hblock. injection Hrun as -> ->.
  unfold poll_block in Hblock.
  destruct (flush_exact sqs w p He Hdel) as (w1 & Hflush & He1 & Hcalls & Hnext & Hurl & Hargs).
  unfold bind at 1 in Hblock. rewrite Hflush in Hblock.
  rewrite <- Hurl, <- Hargs in Hpull.
  unfold bind at 1 in Hblock. rewrite (pull_returns sqs w1 response Hpull) in Hblock.
  unfold bind at 1 in Hblock.
  destruct (classify fn (fresh w1 response) [] _) as [r3 w3] eqn:Hclass.
  apply classify_effect in Hclass as (sub & Hsub & Hp & Hc & _ & Hcalls3 & _).
  destruct r3 as [[|u um]|e3]; cbn [nonempty] in Hblock; [done| |].
  { unfold release, call in Hblock. by rewrite Hrel in Hblock. }
  injection Hblock as -> ->.
  rewrite Hcalls3, Hc, Hp. unfold pulled, claimed. cbn [self calls]. rewrite He1. cbn.
  rewrite Hempty, Hcalls, Hurl, Hargs, <- app_assoc. cbn.
  repeat split. unfold fresh in *. by rewrite <- Hnext.
Qed.

(** *** A poll cycle on a failing transport *)

(** X17: a poll cycle on an entered instance with an empty pulled pool
    and a claimed pool that is not empty, whose [delete_messages] raises:
    the cycle raises (and with it the request that ran it), the failed
    deletion is its only call, nothing is pulled, and the instance is as it
    was: the claimed pool is not cleared. *)
Theorem failed_deletion_keeps_claimed fn (message_id : string) sqs w p (e : Exn) :
  entered (self w) = Some p →
  _inqueue_messages p = [] →
  _processed_messages p ≠ [] →
  enters sqs = None →
  deleting sqs (_processed_messages p) = Some e →
  _poll_messages fn sqs w
  = (Raise (match exits sqs with Some e' => e' | None => e end),
     record (delete_messages (_sqs_url (self w)) (_processed_messages p)) (Some e) w)
  ∧ _get_response_resume message_id fn sqs w
    = (Raise (match exits sqs with Some e' => e' | None => e end),
       record (delete_messages (_sqs_url (self w)) (_processed_messages p)) (Some e) w).
Proof.
  intros He Hempty Hne Henter Hdel.
  assert (Hpoll : _poll_messages fn sqs w
    = (Raise (match exits sqs with Some e' => e' | None => e end),
       record (delete_messages (_sqs_url (self w)) (_processed_messages p)) (Some e) w)).
  { unfold _poll_messages. unfold bind at 1, attr at 1. rewrite He, Hempty. cbn [nonempty].
    unfold with_SqsClient. rewrite Henter. unfold poll_block.
    unfold bind at 1. rewrite flush_cases, He, Hdel.
    destruct (_processed_messages p); [done|]. cbn [nonempty].
    by destruct (exits sqs). }
  split; [exact Hpoll|]. unfold _get_response_resume, bind. by rewrite Hpoll.
Qed.

(** X18: a poll cycle on an entered instance with an empty pulled pool,
    whose deletion returns and whose [pull_messages] raises: the cycle
    raises after the flush; the claimed pool is empty, nothing is pooled
    and nothing is released. *)
Theorem failed_pull_pools_nothing fn sqs w p (e : Exn) :
  entered (self w) = Some p →
  _inqueue_messages p = [] →
  enters sqs = None →
  deleting sqs (_processed_messages p) = None →
  pulling sqs (_sqs_url (self w)) (_sqs_args (self w)) = Raise e →
  (_poll_messages fn sqs w).1 = Raise (match exits sqs with Some e' => e' | None => e end)
  ∧ calls (_poll_messages fn sqs w).2
    = calls w
      ++ (if nonempty (_processed_messages p)
          then [(delete_messages (_sqs_url (self w)) (_processed_messages p), None)]
          else [])
      ++ [(pull_messages (_sqs_url (self w)) (_sqs_args (self w)), Some e)]
  ∧ entered (self (_poll_messages fn sqs w).2) = Some (with_processed [] p).
Proof.
  intros He Hempty Henter Hdel Hpull.
  assert (Hrun : ∃ w', _poll_messages fn sqs w
                       = (Raise (match exits sqs with Some e' => e' | None => e end), w')
    ∧ calls w'
      = calls w
        ++ (if nonempty (_processed_messages p)
            then [(delete_messages (_sqs_url (self w)) (_processed_messages p), None)]
            else [])
        ++ [(pull_messages (_sqs_url (self w)) (_sqs_args (self w)), Some e)]
    ∧ entered (self w') = Some (with_processed [] p)).
  { unfold _poll_messages. unfold bind at 1, attr at 1. rewrite He, Hempty. cbn [nonempty].
    unfold with_SqsClient. rewrite Henter. unfold poll_block.
    destruct (flush_exact sqs w p He Hdel)
      as (w1 & Hflush & He1 & Hcalls & Hnext & Hurl & Hargs).
    unfold bind at 1. rewrite Hflush.
    rewrite <- Hurl, <- Hargs in Hpull.
    unfold bind at 1, pull at 1. rewrite Hpull. cbv beta iota.
    eexists. split; [by destruct (exits sqs)|]. cbn.
    by rewrite Hcalls, Hurl, Hargs, <- app_assoc. }
  by destruct Hrun as (w' & -> & ? & ?).
Qed.

(** X10: a scan that finds a message for an identifier that is not in the
    waiting set (the context was entered again, or another request with
    the same identifier was served first) still takes the message out of
    the pulled pool and puts it into the claimed pool, and then raises
    [KeyError]: the reply will be deleted, and no caller receives it. *)
Theorem unregistered_match_is_consumed fn (message_id : string)
    (pre post : list Message) (m : Message) w p :
  entered (self w) = Some p →
  _inqueue_messages p = pre ++ m :: post →
  (∀ x, x ∈ pre → fn message_id (raw x) = Ok false) →
  fn message_id (raw m) = Ok true →
  message_id ∉ _waiting_for_polling p →
  scan fn message_id w
  = (Raise KeyError,
     set_entered {| _inqueue_messages := pre ++ post;
                    _processed_messages := _processed_messages p ++ [m];
                    _waiting_for_polling := _waiting_for_polling p |} w).
Proof.
  intros He Hq Hpre Hm Hnotin. unfold scan, bind, attr. rewrite He, Hq.
  assert (Hgen : ∀ front,
    scan_from fn message_id (front ++ pre ++ m :: post) (pre ++ m :: post)
      (length front) w
    = (Raise KeyError,
       set_entered {| _inqueue_messages := front ++ pre ++ post;
                      _processed_messages := _processed_messages p ++ [m];
                      _waiting_for_polling := _waiting_for_polling p |} w)).
  { clear Hq. induction pre as [|x pre IH]; intros front.
    - cbn [app scan_from]. unfold bind at 1, lift at 1. rewrite Hm.
      unfold bind, update, remove_waiting, attr, ret, raise. rewrite He. cbn.
      rewrite decide_False by done. by rewrite slice_out.
    - cbn [app scan_from]. unfold bind at 1, lift at 1.
      rewrite (Hpre x) by left.
      specialize (IH ltac:(intros y Hy; apply Hpre; by right) (front ++ [x])).
      rewrite length_app in IH. cbn in IH.
      rewrite <- !app_assoc in IH. cbn in IH.
      by replace (S (length front)) with (length front + 1) by lia. }
  exact (Hgen []).
Qed.

(** *** One context, from entry to exit *)

Lemma exec_app (evs1 evs2 : list Event) s :
  exec (evs1 ++ evs2) s = exec evs2 (exec evs1 s).
Proof. unfold exec. apply fold_left_app. Qed.

Lemma claim_kept (ts : list Task) (t : nat) (task : Task) w w'
    (r : Result (option Message)) :
  ts !! t = Some task → reply_of task = None →
  (∀ m, m ∈ replies ts → m ∈ claimed w ++ confirmed (calls w)) →
  calls w' = calls w →
  (pulled w' = pulled w ∧ claimed w' = claimed w ∧ (∀ m, r ≠ Ok (Some m))
   ∨ ∃ pre m post, pulled w = pre ++ m :: post
       ∧ pulled w' = pre ++ post
       ∧ claimed w' = claimed w ++ [m]
       ∧ (r = Ok (Some m) ∨ r = Raise KeyError)) →
  ∀ m, m ∈ replies (<[t := with_status task (outcome r)]> ts) →
       m ∈ claimed w' ++ confirmed (calls w').
Proof.
  intros Ht Hold Hok ->.
  intros [(_ & -> & Hr)|(pre & m & post & _ & _ & -> & Hr)] x.
  - rewrite (replies_insert_none ts t task); [apply Hok|done..|].
    destruct r as [[m|]|e]; [by destruct (Hr m)|done..].
  - destruct Hr as [-> | ->].
    + rewrite (replies_insert_some ts t task _ m) by done.
      intros [->|Hx%Hok]%elem_of_cons; rewrite !elem_of_app in *.
      * left. right. by left.
      * tauto.
    + rewrite (replies_insert_none ts t task) by done.
      intros Hx%Hok. rewrite !elem_of_app in *. tauto.
Qed.

Lemma kept_step (ev : Event) s :
  is_enter ev = false →
  (∀ m, m ∈ replies (tasks s) → m ∈ claimed (world s) ++ confirmed (calls (world s))) →
  ∀ m, m ∈ replies (tasks (step ev s)) →
       m ∈ claimed (world (step ev s)) ++ confirmed (calls (world (step ev s))).
Proof.
  intros Hev Hok. destruct ev as [id fn|t sqs|t| |sqs]; cbn [step]; [..|done|].
  - cbn. unfold replies. rewrite omap_app. cbn. by rewrite app_nil_r.
  - destruct (tasks s !! t) as [task|] eqn:Ht; [|done].
    assert (Hnone : status task = Created ∨ status task = Suspended →
                    reply_of task = None).
    { unfold reply_of. by intros [-> | ->]. }
    destruct (status task) eqn:Hst; [| |done..]; unfold run_piece.
    + destruct (_get_response_begin _ _ _) as [r w'] eqn:Hrun. cbn [world tasks].
      apply begin_effect in Hrun as (Hcalls & _ & Hcases).
      eapply claim_kept; [done|auto|done..].
    + destruct (_get_response_resume _ _ _ _) as [r w'] eqn:Hrun. cbn [world tasks].
      unfold _get_response_resume, bind in Hrun.
      destruct (_poll_messages (match_fn task) sqs (world s)) as [r1 w1] eqn:Hpoll.
      apply poll_effect in Hpoll as (sub & _ & _ & _ & _ & Hflush).
      assert (Hok1 : ∀ m, m ∈ replies (tasks s) → m ∈ claimed w1 ++ confirmed (calls w1)).
      { intros m Hm%Hok. destruct Hflush as [[-> ->]|[-> ->]]; [done|].
        rewrite !elem_of_app in *. cbn. tauto. }
      destruct r1 as [[]|e].
      * apply scan_effect in Hrun as (Hcalls & _ & Hcases).
        eapply claim_kept; [done|auto|done..|].
        destruct Hcases as [[-> ?]|?]; [by left|by right].
      * injection Hrun as <- <-.
        intros m. rewrite (replies_insert_none (tasks s) t task); auto.
  - destruct (tasks s !! t) as [task|] eqn:Ht; [|done].
    destruct (status task) eqn:Hst; [| |done..]; cbn [world tasks]; intros m;
      (rewrite (replies_insert_none (tasks s) t task);
       [apply Hok|done|unfold reply_of; by rewrite Hst|done]).
  - cbn [world tasks]. destruct (__aexit__ sqs (world s)) as [r w'] eqn:Hrun. cbn [snd].
    apply aexit_flushed in Hrun as [(_ & _ & _ & _ & _ & _ & Hcl) _].
    intros m Hm%Hok. destruct Hcl as [[-> ->]|[-> ->]]; [done|].
    rewrite !elem_of_app in *. cbn. tauto.
Qed.

Lemma kept_exec (evs : list Event) s :
  forallb (λ ev, negb (is_enter ev)) evs = true →
  (∀ m, m ∈ replies (tasks s) → m ∈ claimed (world s) ++ confirmed (calls (world s))) →
  ∀ m, m ∈ replies (tasks (exec evs s)) →
       m ∈ claimed (world (exec evs s)) ++ confirmed (calls (world (exec evs s))).
Proof.
  revert s. induction evs as [|ev evs IH]; intros s Hevs Hok; [done|].
  cbn in Hevs. apply andb_true_iff in Hevs as [Hev Hevs].
  cbn. apply IH; [done|]. apply kept_step; [|done]. by destruct (is_enter ev).
Qed.

(** X11: when the context is entered once and left once, with requests,
    runs and timeouts in between in any order and whatever the transport
    did in between, and the exit returns, then at the exit the claimed pool
    is empty, every reply that a caller received has been passed to a
    [delete_messages] that returned, and nothing was passed twice to those
    that returned. *)
Theorem replies_deleted_at_exit
    (sqs_url aws_profile_name : string) (sqs_config : PyDict) (evs : list Event) sqs :
  forallb (λ ev, negb (is_enter ev)) evs = true →
  (__aexit__ sqs (world (exec (Enter :: evs) (boot sqs_url aws_profile_name sqs_config)))).1
  = Ok () →
  Forall (λ m, m ∈ confirmed (calls (world
            (exec (Enter :: evs ++ [Exit sqs]) (boot sqs_url aws_profile_name sqs_config)))))
    (replies (tasks
       (exec (Enter :: evs ++ [Exit sqs]) (boot sqs_url aws_profile_name sqs_config))))
  ∧ claimed (world
       (exec (Enter :: evs ++ [Exit sqs]) (boot sqs_url aws_profile_name sqs_config))) = []
  ∧ NoDup (oid <$> confirmed (calls (world
       (exec (Enter :: evs ++ [Exit sqs]) (boot sqs_url aws_profile_name sqs_config))))).
Proof.
  intros Hevs Hexit.
  set (s := exec (Enter :: evs ++ [Exit sqs]) (boot sqs_url aws_profile_name sqs_config)).
  assert (Hkept : ∀ m, m ∈ replies (tasks s) →
                       m ∈ claimed (world s) ++ confirmed (calls (world s))).
  { unfold s. apply (kept_exec (evs ++ [Exit sqs])
                       (step Enter (boot sqs_url aws_profile_name sqs_config))).
    - rewrite forallb_app, Hevs. done.
    - intros m Hm. by apply elem_of_nil in Hm. }
  assert (Hclaimed : claimed (world s) = []).
  { unfold s. change (Enter :: evs ++ [Exit sqs]) with ((Enter :: evs) ++ [Exit sqs]).
    rewrite exec_app. revert Hexit.
    generalize (exec (Enter :: evs) (boot sqs_url aws_profile_name sqs_config)).
    intros s1 Hexit. change (claimed (__aexit__ sqs (world s1)).2 = []).
    destruct (__aexit__ sqs (world s1)) as [r w'] eqn:Hrun. cbn [fst snd] in *.
    apply aexit_flushed in Hrun as [_ Hempty]. by apply Hempty. }
  split; [|split; [done|]].
  - apply Forall_forall. intros m Hm%Hkept. by rewrite Hclaimed in Hm.
  - pose proof (exec_consistent (Enter :: evs ++ [Exit sqs]) _
                  (boot_consistent sqs_url aws_profile_name sqs_config)) as (_ & _ & Hdl).
    fold s in Hdl. eapply NoDup_submseteq_inv; [|exact Hdl].
    apply fmap_submseteq. solve_submseteq.
Qed.

(** *** Outside the context *)

Lemma unserved_step (ev : Event) s :
  is_enter ev = false →
  entered (self (world s)) = None →
  Forall unserved (tasks s) →
  world (step ev s) = world s ∧ Forall unserved (tasks (step ev s)).
Proof.
  intros Hev He Hok. destruct ev as [id fn|t sqs|t| |sqs]; cbn [step]; [..|done|].
  - split; [done|]. cbn. apply Forall_app. split; [done|]. by apply Forall_singleton.
  - destruct (tasks s !! t) as [task|] eqn:Ht; [|done].
    pose proof (Forall_lookup_1 _ _ _ _ Hok Ht) as Htask. unfold unserved in Htask.
    destruct (status task) eqn:Hst; [|done..]. unfold run_piece.
    unfold _get_response_begin, bind, update. rewrite He. cbn.
    split; [done|]. by apply Forall_insert.
  - destruct (tasks s !! t) as [task|] eqn:Ht; [|done].
    destruct (status task) eqn:Hst; [| |done..]; cbn;
      (split; [done|]; by apply Forall_insert).
  - cbn. unfold __aexit__, bind, attr. by rewrite He.
Qed.

(** X12: as long as the context has not been entered, nothing reaches the
    queue: whatever requests are made and run after their publish, each
    fails with [AttributeError] at the first step of [_get_response] (or
    with [TimeoutError] before it), no request is ever suspended or served,
    and no call of the SQS client is made. *)
Theorem nothing_happens_outside_context
    (sqs_url aws_profile_name : string) (sqs_config : PyDict) (evs : list Event) :
  forallb (λ ev, negb (is_enter ev)) evs = true →
  calls (world (exec evs (boot sqs_url aws_profile_name sqs_config))) = []
  ∧ Forall unserved (tasks (exec evs (boot sqs_url aws_profile_name sqs_config))).
Proof.
  intros Hevs.
  assert (Hgen : ∀ s, entered (self (world s)) = None → Forall unserved (tasks s) →
            world (exec evs s) = world s ∧ Forall unserved (tasks (exec evs s))).
  { induction evs as [|ev evs IH]; intros s He Hok; [done|].
    cbn in Hevs. apply andb_true_iff in Hevs as [Hev Hevs].
    destruct (unserved_step ev s) as [Hw Hts]; [by destruct (is_enter ev)|done..|].
    change (exec (ev :: evs) s) with (exec evs (step ev s)).
    destruct (IH Hevs (step ev s)) as [Hw' Hts']; [by rewrite Hw|done|].
    split; [by rewrite Hw', Hw|done]. }
  destruct (Hgen (boot sqs_url aws_profile_name sqs_config)) as [-> ?];
    [done|constructor|done].
Qed.

End Requests.

(** ** More on the default matcher *)

Section MatcherFacts.

(** X13: what the default matcher says about a message depends on the
    identifier in one way only.  Either it raises the same exception for
    every identifier, or it answers [False] for every identifier, or the
    message names one request and it answers [True] for that identifier and
    [False] for every other: under the default matcher a message never
    matches two identifiers. *)
Theorem default_match_fn_one_identifier (message : PyDict) :
  (∃ e, ∀ id, default_match_fn id message = Raise e)
  ∨ (∀ id, default_match_fn id message = Ok false)
  ∨ (∃ request_id, ∀ id, default_match_fn id message = Ok (String.eqb id request_id)).
Proof.
  unfold default_match_fn.
  destruct (Json.loads _) as [body|e]; cbn [rbind]; [|left; by exists e].
  destruct (py_get body _ _) as [attributes|e]; cbn [rbind]; [|left; by exists e].
  destruct (py_get attributes _ _) as [entry|e]; cbn [rbind]; [|left; by exists e].
  destruct (py_get entry _ _) as [value|e]; cbn [rbind]; [|left; by exists e].
  destruct (Json.loads value) as [metadata|e]; cbn [rbind]; [|left; by exists e].
  destruct (truthy metadata); cbn [negb]; [|right; by left].
  destruct (py_get metadata _ _) as [request_id|e]; cbn [rbind]; [|left; by exists e].
  destruct request_id; cbn [str_eq]; try (right; by left).
  right. right. by eexists.
Qed.

End MatcherFacts.

(** ** More on the registry *)

Section RegistryMore.

Import Registry.
Local Open Scope nat_scope.

Context {K : Type} `{Countable K} {Args Obj : Type} (construct : K → Args → Obj).

Lemma construct_all_app (reqs1 reqs2 : list (Resource K * Args)) (c : Classes K Obj) :
  construct_all construct (reqs1 ++ reqs2) c
  = ((construct_all construct reqs1 c).1
       ++ (construct_all construct reqs2 (construct_all construct reqs1 c).2).1,
     (construct_all construct reqs2 (construct_all construct reqs1 c).2).2).
Proof.
  revert c. induction reqs1 as [|[resource args] reqs1 IH]; intros c; cbn.
  { by destruct (construct_all construct reqs2 c). }
  destruct (__call__ construct resource args c) as [r c1].
  rewrite IH. by destruct (construct_all construct reqs1 c1),
    (construct_all construct reqs2 _).
Qed.

Lemma construct_all_length (reqs : list (Resource K * Args)) (c : Classes K Obj) :
  length (construct_all construct reqs c).1 = length reqs.
Proof.
  revert c. induction reqs as [|[resource args] reqs IH]; intros c; cbn; [done|].
  destruct (__call__ construct resource args c) as [r c1].
  specialize (IH c1). destruct (construct_all construct reqs c1). cbn in *. by f_equal.
Qed.

(** A key that no construction names stays out of the dictionary. *)
Lemma construct_all_absent (reqs : list (Resource K * Args)) (c : Classes K Obj) (k : K) :
  (∀ args, (Hashable k, args) ∉ reqs) →
  _resource_instances c !! k = None →
  _resource_instances (construct_all construct reqs c).2 !! k = None.
Proof.
  revert c. induction reqs as [|[resource args] reqs IH]; intros c Hnot Hk; [done|].
  cbn. destruct (__call__ construct resource args c) as [r c1] eqn:Hcall.
  specialize (IH c1). destruct (construct_all construct reqs c1) as [rs c2]. cbn in *.
  apply IH.
  - intros args' Hin. apply (Hnot args'). by right.
  - destruct resource as [k'|]; cbn in Hcall; [|by injection Hcall as <- <-].
    assert (k' ≠ k) by (intros ->; apply (Hnot args); by left).
    destruct (_resource_instances c !! k'); injection Hcall as <- <-; [done|].
    cbn. by rewrite lookup_insert_ne.
Qed.

(** The objects that exist stay as they are. *)
Lemma construct_all_objects (reqs : list (Resource K * Args)) (c : Classes K Obj)
    (a : nat) (o : Obj) :
  objects c !! a = Some o →
  objects (construct_all construct reqs c).2 !! a = Some o.
Proof.
  revert c. induction reqs as [|[resource args] reqs IH]; intros c Ho; [done|].
  cbn. destruct (__call__ construct resource args c) as [r c1] eqn:Hcall.
  specialize (IH c1). destruct (construct_all construct reqs c1) as [rs c2]. cbn in *.
  apply IH. destruct resource as [k'|]; cbn in Hcall; [|by injection Hcall as <- <-].
  destruct (_resource_instances c !! k'); injection Hcall as <- <-; [done|].
  cbn. by rewrite lookup_app_l by (by eapply lookup_lt_Some).
Qed.

(** X14: the instance of a resource is built from the arguments of the
    first construction for that resource; every later construction for it
    answers with that instance, whatever arguments it gives. *)
Theorem first_construction_decides
    (before after : list (Resource K * Args)) (k : K) (args : Args) :
  (∀ args', (Hashable k, args') ∉ before) →
  ∃ x,
    (construct_all construct (before ++ (Hashable k, args) :: after) no_instances).1
      !! length before = Some (Ok x)
    ∧ objects (construct_all construct (before ++ (Hashable k, args) :: after)
                 no_instances).2 !! x
      = Some (construct k args)
    ∧ (∀ j args',
         (before ++ (Hashable k, args) :: after) !! j = Some (Hashable k, args') →
         (construct_all construct (before ++ (Hashable k, args) :: after) no_instances).1
           !! j = Some (Ok x)).
Proof.
  intros Hnot.
  set (reqs := before ++ (Hashable k, args) :: after).
  set (c1 := (construct_all construct before no_instances).2).
  assert (Hwf1 : well_formed construct c1).
  { apply (construct_all_effect construct before no_instances).
    apply no_instances_well_formed. }
  assert (Hk1 : _resource_instances c1 !! k = None).
  { apply construct_all_absent; [done|]. apply lookup_empty. }
  set (x := length (objects c1)).
  set (c2 := {| _resource_instances := <[k := x]> (_resource_instances c1);
                objects := objects c1 ++ [construct k args] |}).
  assert (Hcall : __call__ construct (Hashable k) args c1 = (Ok x, c2)).
  { cbn. by rewrite Hk1. }
  assert (Hrun : construct_all construct reqs no_instances
    = ((construct_all construct before no_instances).1
         ++ Ok x :: (construct_all construct after c2).1,
       (construct_all construct after c2).2)).
  { unfold reqs. rewrite construct_all_app. fold c1.
    cbn [construct_all]. rewrite Hcall.
    by destruct (construct_all construct after c2). }
  assert (Hfinal : _resource_instances (construct_all construct reqs no_instances).2 !! k
                   = Some x).
  { rewrite Hrun. cbn [snd].
    apply (construct_all_effect construct after c2).
    - destruct (call_effect construct k args c1 Hwf1) as (a & _ & _ & Hwf2 & _).
      by rewrite Hcall in Hwf2.
    - cbn. by rewrite lookup_insert_eq. }
  exists x. split; [|split].
  - rewrite Hrun. cbn [fst].
    rewrite lookup_app_r by (rewrite construct_all_length; lia).
    by rewrite construct_all_length, Nat.sub_diag.
  - rewrite Hrun. cbn [snd]. apply construct_all_objects. cbn.
    rewrite lookup_app_r by done. by rewrite Nat.sub_diag.
  - intros j args' Hj.
    destruct (construct_all_effect construct reqs no_instances
                (no_instances_well_formed construct)) as (_ & _ & Hres).
    destruct (Hres j k args' Hj) as (a & Ha & Hka).
    rewrite Hfinal in Hka. by injection Hka as <-.
Qed.

End RegistryMore.

(** ** Decrypting a stored email *)

Section Decrypt.

Import Email.
Local Open Scope nat_scope.

Variable lib : Library.

Lemma write_at_end (bs : list Byte.byte) (f : File) :
  position f = length (data f) →
  write bs f = {| data := data f ++ bs; position := length (data f ++ bs) |}.
Proof.
  intros Hp. unfold write. rewrite Hp, Nat.sub_diag, take_ge by done.
  rewrite drop_ge by lia. cbn. by rewrite app_nil_r, length_app.
Qed.

(** The loop from position [position enc] on: it reads the encrypted file
    to its end and appends the decryption of what it read. *)
Lemma decrypt_chunks_rest (fuel : nat) (c : Cipher lib) (enc dec : File) :
  stream lib →
  position enc ≤ length (data enc) →
  position dec = length (data dec) →
  length (data enc) - position enc < fuel →
  decrypt_chunks lib fuel c enc dec
  = ({| data := data enc; position := length (data enc) |},
     {| data := data dec ++ (decrypt lib c (drop (position enc) (data enc))).1;
        position := length (data dec ++ (decrypt lib c (drop (position enc) (data enc))).1) |}).
Proof.
  intros Hstream. revert c enc dec.
  induction fuel as [|fuel IH]; intros c enc dec Hpos Hdec Hfuel; [lia|].
  cbn [decrypt_chunks]. unfold read.
  set (rest := drop (position enc) (data enc)).
  assert (Hsize : 0 < chunk_size) by (unfold chunk_size; lia).
  generalize dependent chunk_size. intros n Hn.
  destruct (take n rest) as [|b chunk] eqn:Hchunk.
  - assert (Hrest : rest = []).
    { destruct rest; [done|]. destruct n; [lia|done]. }
    rewrite Hrest. destruct (Hstream c [] []) as [Hlen _].
    apply length_zero_iff_nil in Hlen. rewrite Hlen, app_nil_r. cbn [length].
    rewrite Nat.add_0_r.
    assert (Heq : position enc = length (data enc)).
    { apply (f_equal length) in Hrest. unfold rest in Hrest.
      rewrite length_drop in Hrest. cbn in Hrest. lia. }
    rewrite Heq. f_equal. destruct dec as [d pd]. cbn in *. by subst.
  - rewrite <- Hchunk.
    destruct (decrypt lib c (take n rest)) as [plain c'] eqn:Hplain.
    assert (Hsplit : rest = take n rest ++ drop n rest) by by rewrite take_drop.
    destruct (Hstream c (take n rest) (drop n rest)) as [_ Hcat].
    rewrite <- Hsplit, Hplain in Hcat. cbn [fst snd] in Hcat.
    assert (Hlen : 0 < length (take n rest)) by (rewrite Hchunk; cbn; lia).
    assert (Hle : length (take n rest) ≤ length rest) by (rewrite length_take; lia).
    assert (Hrestlen : length rest = length (data enc) - position enc)
      by (unfold rest; by rewrite length_drop).
    rewrite (write_at_end plain dec Hdec).
    rewrite IH; cbn [data position].
    + f_equal. rewrite Hcat. cbn [fst].
      replace (drop (position enc + length (take n rest)) (data enc))
        with (drop n rest).
      { by rewrite <- !app_assoc. }
      unfold rest. rewrite drop_drop.
      destruct (decide (n ≤ length (drop (position enc) (data enc)))) as [Hn'|Hn'].
      * by rewrite length_take_le.
      * rewrite length_take_ge by lia. fold rest.
        rewrite length_drop in Hn'. by rewrite !drop_ge by lia.
    + lia.
    + done.
    + lia.
Qed.

(** X15: when the metadata hold what [decrypt_s3_email] reads, the calls
    outside succeed, the declared length is not negative, the cipher
    object works as a stream and the decrypted file starts empty, then
    [decrypt_s3_email] returns with the encrypted file read to its end and
    unchanged, and the decrypted file holds the decryption of the whole
    encrypted file, cut to the declared length (or filled with zeros up to
    it): reading in chunks of 16 KiB changes nothing in the result. *)
Theorem decrypt_s3_email_whole_text (enc_file : File) (metadata response : PyDict)
    (key_v2 matdesc encrypt_ctx encrypt_key iv_text length_text : PyVal)
    (envelope_key iv : list Byte.byte) (original_size : Z) (decryptor : Cipher lib) :
  dict_lookup "x-amz-key-v2" metadata = Some key_v2 →
  b64decode lib key_v2 = Ok envelope_key →
  dict_lookup "x-amz-matdesc" metadata = Some matdesc →
  Json.loads matdesc = Ok encrypt_ctx →
  kms_decrypt lib envelope_key encrypt_ctx = Ok response →
  dict_lookup "Plaintext" response = Some encrypt_key →
  dict_lookup "x-amz-iv" metadata = Some iv_text →
  b64decode lib iv_text = Ok iv →
  dict_lookup "x-amz-unencrypted-content-length" metadata = Some length_text →
  int lib length_text = Ok original_size →
  (0 ≤ original_size)%Z →
  AES_new lib encrypt_key iv = Ok decryptor →
  stream lib →
  decrypt_s3_email lib enc_file empty_file metadata
  = (Ok (),
     {| data := data enc_file; position := length (data enc_file) |},
     {| data := take (Z.to_nat original_size) (decrypt lib decryptor (data enc_file)).1
                ++ replicate (Z.to_nat original_size
                              - length (decrypt lib decryptor (data enc_file)).1) Byte.x00;
        position := length (decrypt lib decryptor (data enc_file)).1 |}).
Proof.
  intros Hk Hb1 Hm Hj Hkms Hp Hiv Hb2 Hl Hint Hsize Haes Hstream.
  unfold decrypt_s3_email, item.
  rewrite Hk. cbn [rbind]. rewrite Hb1. cbn [rbind]. rewrite Hm. cbn [rbind].
  rewrite Hj. cbn [rbind]. rewrite Hkms. cbn [rbind]. rewrite Hp. cbn [rbind].
  rewrite Hiv. cbn [rbind]. rewrite Hb2. cbn [rbind]. rewrite Hl. cbn [rbind].
  rewrite Hint. cbn [rbind]. rewrite Haes. cbn [rbind].
  rewrite decrypt_chunks_rest; [|done|cbn; lia|done|cbn; lia].
  cbn [seek0 data position empty_file drop app].
  unfold truncate. cbn [data position].
  destruct (Z.ltb_spec original_size 0); [lia|]. done.
Qed.

(** X16: when the metadata lack one of the four entries that
    [decrypt_s3_email] reads, it raises, and it has neither read the
    encrypted file nor written the decrypted one. *)
Theorem decrypt_s3_email_missing_metadata (enc_file dec_file : File)
    (metadata : PyDict) (key : string) :
  key ∈ ["x-amz-key-v2"; "x-amz-matdesc"; "x-amz-iv";
         "x-amz-unencrypted-content-length"] →
  dict_lookup key metadata = None →
  ∃ e, decrypt_s3_email lib enc_file dec_file metadata = (Raise e, enc_file, dec_file).
Proof.
  intros Hkey Hnone. unfold decrypt_s3_email.
  destruct (rbind (item metadata "x-amz-key-v2") _) as [[size c]|e] eqn:Hprep;
    [|by exists e].
  exfalso. unfold item in Hprep.
  repeat (apply elem_of_cons in Hkey as [->|Hkey]);
    [..|by apply elem_of_nil in Hkey];
    repeat match type of Hprep with
    | rbind (match dict_lookup ?k metadata with _ => _ end) _ = _ =>
        first [rewrite Hnone in Hprep; cbn [rbind] in Hprep; discriminate
              |destruct (dict_lookup k metadata); cbn [rbind] in Hprep; [|discriminate]]
    | rbind ?x _ = _ => destruct x; cbn [rbind] in Hprep; [|discriminate]
    end.
Qed.

End Decrypt.

(** ** The further properties at work on concrete inputs *)

Section MoreWitnesses.

Import Registry.
Local Open Scope nat_scope.

Lemma echo_client_complete : Sqs.complete echo_client.
Proof. intros i batch. by eexists _, _. Qed.

Lemma delete_messages_complete_witness :
  Sqs.entries twelve_messages = Ok twelve_entries
  ∧ Sqs.complete echo_client
  ∧ ∃ sent, (Sqs.delete_messages echo_client twelve_messages).2 = sent
            ∧ length sent = 2
            ∧ concat sent = twelve_entries.
Proof.
  assert (Hes : Sqs.entries twelve_messages = Ok twelve_entries)
    by (vm_compute; reflexivity).
  split; [exact Hes|]. split; [exact echo_client_complete|].
  destruct (delete_messages_complete echo_client twelve_messages twelve_entries
              Hes echo_client_complete) as (sent & Hrun & Hcat & Hlen & _).
  exists sent. rewrite Hrun. split; [reflexivity|]. split; [exact Hlen|exact Hcat].
Defined.

Lemma delete_messages_missing_handle_witness :
  Sqs.entries (take 11 twelve_messages) = Ok (take 11 twelve_entries)
  ∧ dict_lookup "ReceiptHandle" no_handle = None
  ∧ (Sqs.delete_messages echo_client
       (take 11 twelve_messages ++ no_handle :: drop 11 twelve_messages)).1
    = Raise KeyError
  ∧ concat (Sqs.delete_messages echo_client
              (take 11 twelve_messages ++ no_handle :: drop 11 twelve_messages)).2
    = take 10 twelve_entries.
Proof.
  assert (Hes : Sqs.entries (take 11 twelve_messages) = Ok (take 11 twelve_entries))
    by (vm_compute; reflexivity).
  split; [exact Hes|]. split; [reflexivity|].
  destruct (delete_messages_missing_handle echo_client (take 11 twelve_messages)
              (drop 11 twelve_messages) no_handle (take 11 twelve_entries)
              Hes eq_refl echo_client_complete) as [Hr Hsent].
  split; [exact Hr|]. rewrite Hsent. vm_compute. reflexivity.
Defined.

Lemma agent_delete_messages_prefix_witness :
  Agent.has_client entered_agent = true
  ∧ (Agent.delete_messages accepting_boto
       [PDict (reply_to "a"); PDict no_handle; PDict (reply_to "b")]
       (entered_agent, [])).2.2
    = [Agent.delete_message "https://sqs/replies" (PStr "rh-a")].
Proof.
  split; [reflexivity|].
  destruct (agent_delete_messages_prefix accepting_boto
              [PDict (reply_to "a"); PDict no_handle; PDict (reply_to "b")]
              entered_agent [] eq_refl (λ _ _ _, eq_refl)) as (r & -> & _).
  vm_compute. reflexivity.
Defined.

Lemma default_matcher_answers_replies (id : string) (r : PyDict) :
  id ∈ ({["abc123"]} : gset string) → r ∈ mixed_batch →
  raises (default_match_fn id r) = false.
Proof.
  intros ->%elem_of_singleton Hr. unfold mixed_batch in Hr.
  repeat (apply elem_of_cons in Hr as [-> | Hr]; [vm_compute; reflexivity|]).
  by apply elem_of_nil in Hr.
Defined.

Lemma poll_cycle_calls_witness :
  entered (self holding_claimed) = Some one_claimed
  ∧ deleting (delivers mixed_batch) (_processed_messages one_claimed) = None
  ∧ pulling (delivers mixed_batch) "https://sqs/replies" [] = Ok mixed_batch
  ∧ calls (_poll_messages default_match_fn (delivers mixed_batch) holding_claimed).2
    = [(delete_messages "https://sqs/replies" [ {| oid := 0; raw := reply_to "old" |} ], None);
       (pull_messages "https://sqs/replies" [], None);
       (change_message_visibility_batch "https://sqs/replies"
          [ {| oid := 1; raw := reply_to "zzz" |}; {| oid := 3; raw := reply_to "yyy" |} ] 0,
        None)].
Proof.
  assert (Hdel : deleting (delivers mixed_batch) (_processed_messages one_claimed) = None)
    by (vm_compute; reflexivity).
  split; [reflexivity|]. split; [exact Hdel|]. split; [reflexivity|].
  destruct (poll_cycle_calls default_match_fn (delivers mixed_batch) mixed_batch
              holding_claimed one_claimed
              eq_refl eq_refl eq_refl Hdel eq_refl default_matcher_answers_replies)
    as [-> _].
  vm_compute. reflexivity.
Defined.

Lemma delivered_reply_is_returned_witness :
  "abc123" ∈ _waiting_for_polling one_claimed
  ∧ deleting (delivers mixed_batch) (_processed_messages one_claimed) = None
  ∧ pulling (delivers mixed_batch) "https://sqs/replies" [] = Ok mixed_batch
  ∧ reply_to_abc123 ∈ mixed_batch
  ∧ default_match_fn "abc123" reply_to_abc123 = Ok true
  ∧ ∃ m, (_get_response_resume "abc123" default_match_fn (delivers mixed_batch)
            holding_claimed).1
         = Ok (Some m)
         ∧ raw m ∈ mixed_batch.
Proof.
  assert (Hin : "abc123" ∈ _waiting_for_polling one_claimed) by (cbn; set_solver).
  assert (Hdel : deleting (delivers mixed_batch) (_processed_messages one_claimed) = None)
    by (vm_compute; reflexivity).
  assert (Hr0 : reply_to_abc123 ∈ mixed_batch) by (right; left).
  assert (Hacc : default_match_fn "abc123" reply_to_abc123 = Ok true)
    by (vm_compute; reflexivity).
  split; [exact Hin|]. split; [exact Hdel|]. split; [reflexivity|].
  split; [exact Hr0|]. split; [exact Hacc|].
  destruct (delivered_reply_is_returned default_match_fn "abc123" (delivers mixed_batch)
              mixed_batch reply_to_abc123 holding_claimed one_claimed
              eq_refl eq_refl Hin eq_refl Hdel eq_refl eq_refl eq_refl
              default_matcher_answers_replies Hr0 Hacc) as (m & Hm & _ & Hraw & _).
  exists m. split; [exact Hm|exact Hraw].
Defined.

Lemma aborted_poll_releases_nothing_witness :
  deleting (delivers batch_with_stranger) (_processed_messages one_claimed) = None
  ∧ pulling (delivers batch_with_stranger) "https://sqs/replies" [] = Ok batch_with_stranger
  ∧ (_poll_messages default_match_fn (delivers batch_with_stranger) holding_claimed).1
    = Raise JSONDecodeError
  ∧ calls (_poll_messages default_match_fn (delivers batch_with_stranger) holding_claimed).2
    = [(delete_messages "https://sqs/replies" [ {| oid := 0; raw := reply_to "old" |} ], None);
       (pull_messages "https://sqs/replies" [], None)].
Proof.
  assert (Hdel : deleting (delivers batch_with_stranger) (_processed_messages one_claimed)
                 = None) by (vm_compute; reflexivity).
  assert (Hraise : (_poll_messages default_match_fn (delivers batch_with_stranger)
                      holding_claimed).1
                   = Raise JSONDecodeError) by (vm_compute; reflexivity).
  split; [exact Hdel|]. split; [reflexivity|]. split; [exact Hraise|].
  destruct (aborted_poll_releases_nothing default_match_fn (delivers batch_with_stranger)
              batch_with_stranger holding_claimed one_claimed JSONDecodeError
              eq_refl eq_refl eq_refl Hdel eq_refl eq_refl eq_refl Hraise)
    as [-> _].
  reflexivity.
Defined.

Lemma failed_deletion_keeps_claimed_witness :
  entered (self holding_claimed) = Some one_claimed
  ∧ deleting deletion_fails (_processed_messages one_claimed)
    = Some (OtherError "ClientError")
  ∧ (_get_response_resume "abc123" default_match_fn deletion_fails holding_claimed).1
    = Raise (OtherError "ClientError")
  ∧ claimed (_get_response_resume "abc123" default_match_fn deletion_fails
               holding_claimed).2
    = [ {| oid := 0; raw := reply_to "old" |} ].
Proof.
  assert (Hdel : deleting deletion_fails (_processed_messages one_claimed)
                 = Some (OtherError "ClientError")) by (vm_compute; reflexivity).
  split; [reflexivity|]. split; [exact Hdel|].
  destruct (failed_deletion_keeps_claimed default_match_fn "abc123" deletion_fails
              holding_claimed one_claimed (OtherError "ClientError")
              eq_refl eq_refl ltac:(discriminate) eq_refl Hdel) as [_ ->].
  split; reflexivity.
Defined.

Lemma failed_pull_pools_nothing_witness :
  deleting pull_fails (_processed_messages one_claimed) = None
  ∧ pulling pull_fails "https://sqs/replies" [] = Raise (OtherError "ClientError")
  ∧ (_poll_messages default_match_fn pull_fails holding_claimed).1
    = Raise (OtherError "ClientError")
  ∧ calls (_poll_messages default_match_fn pull_fails holding_claimed).2
    = [(delete_messages "https://sqs/replies" [ {| oid := 0; raw := reply_to "old" |} ], None);
       (pull_messages "https://sqs/replies" [], Some (OtherError "ClientError"))].
Proof.
  assert (Hdel : deleting pull_fails (_processed_messages one_claimed) = None)
    by (vm_compute; reflexivity).
  split; [exact Hdel|]. split; [reflexivity|].
  destruct (failed_pull_pools_nothing default_match_fn pull_fails holding_claimed
              one_claimed (OtherError "ClientError") eq_refl eq_refl eq_refl Hdel eq_refl)
    as (-> & -> & _).
  split; reflexivity.
Defined.

Lemma unregistered_match_is_consumed_witness :
  ("r1" ∉ _waiting_for_polling stale_pools)
  ∧ (scan default_match_fn "r1" holding_stale).1 = Raise KeyError
  ∧ claimed (scan default_match_fn "r1" holding_stale).2
    = [ {| oid := 1; raw := reply_to "r1" |} ].
Proof.
  assert (Hnot : "r1" ∉ _waiting_for_polling stale_pools) by (cbn; set_solver).
  split; [exact Hnot|].
  rewrite (unregistered_match_is_consumed default_match_fn "r1"
             [ {| oid := 0; raw := reply_to "r2" |} ] []
             {| oid := 1; raw := reply_to "r1" |} holding_stale stale_pools
             eq_refl eq_refl).
  - split; reflexivity.
  - intros x ->%list_elem_of_singleton. vm_compute. reflexivity.
  - vm_compute. reflexivity.
  - exact Hnot.
Defined.

Lemma replies_deleted_at_exit_witness :
  forallb (λ ev, negb (is_enter ev)) inside_one_context = true
  ∧ (__aexit__ (delivers []) (world (exec (Enter :: inside_one_context) fresh_process))).1
    = Ok ()
  ∧ replies (tasks (exec (Enter :: inside_one_context ++ [Exit (delivers [])])
                      fresh_process))
    = [ {| oid := 1; raw := reply_to "r1" |}; {| oid := 0; raw := reply_to "r2" |} ]
  ∧ Forall (λ m, m ∈ confirmed (calls (world
              (exec (Enter :: inside_one_context ++ [Exit (delivers [])]) fresh_process))))
      (replies (tasks (exec (Enter :: inside_one_context ++ [Exit (delivers [])])
                         fresh_process))).
Proof.
  assert (Hexit : (__aexit__ (delivers [])
                     (world (exec (Enter :: inside_one_context) fresh_process))).1 = Ok ())
    by (vm_compute; reflexivity).
  split; [reflexivity|]. split; [exact Hexit|]. split; [vm_compute; reflexivity|].
  apply (replies_deleted_at_exit "https://sqs/replies" "default" [] inside_one_context
           (delivers []) eq_refl Hexit).
Defined.

Lemma nothing_happens_outside_context_witness :
  forallb (λ ev, negb (is_enter ev)) never_entered = true
  ∧ calls (world (exec never_entered fresh_process)) = []
  ∧ status <$> tasks (exec never_entered fresh_process)
    = [Raised AttributeError; Raised TimeoutError].
Proof.
  split; [reflexivity|].
  split; [|vm_compute; reflexivity].
  apply (nothing_happens_outside_context "https://sqs/replies" "default" [] never_entered
           eq_refl).
Defined.

Lemma first_construction_decides_witness :
  (∀ args', (Hashable "https://sqs/replies", args') ∉ ([] : list (Resource string * (string * PyDict))))
  ∧ ∃ x, (new_clients three_constructions no_instances).1 !! 2 = Some (Ok x)
         ∧ objects (new_clients three_constructions no_instances).2 !! x
           = Some (__init__ "https://sqs/replies" "default" []).
Proof.
  assert (Hnot : ∀ args', (Hashable "https://sqs/replies", args')
                          ∉ ([] : list (Resource string * (string * PyDict)))).
  { intros args' Hin. by apply elem_of_nil in Hin. }
  split; [exact Hnot|].
  destruct (first_construction_decides
              (λ sqs_url args, __init__ sqs_url args.1 args.2)
              [] (drop 1 three_constructions)
              "https://sqs/replies" ("default", []) Hnot) as (x & _ & Hobj & Hall).
  exists x. split; [|exact Hobj].
  exact (Hall 2 ("staging", []) eq_refl).
Defined.

Lemma toy_library_stream : Email.stream toy_library.
Proof.
  intros c a b. cbn. split; [done|]. by rewrite length_app, Nat.add_assoc.
Defined.

Lemma decrypt_s3_email_whole_text_witness :
  Email.stream toy_library
  ∧ Email.decrypt_s3_email toy_library seven_bytes Email.empty_file toy_metadata
    = (Ok (),
       {| Email.data := Email.data seven_bytes; Email.position := 7 |},
       {| Email.data := [Byte.x68; Byte.x65; Byte.x6c; Byte.x6c; Byte.x6f];
          Email.position := 7 |}).
Proof.
  split; [exact toy_library_stream|].
  rewrite (decrypt_s3_email_whole_text toy_library seven_bytes toy_metadata
             [("Plaintext", PStr "key")]
             (PStr "a2V5") (PStr "{}") (PDict []) (PStr "key") (PStr "aXY=") (PStr "5")
             [] [] 5%Z 0);
    first [reflexivity | exact toy_library_stream | done].
Defined.

Lemma decrypt_s3_email_missing_metadata_witness :
  dict_lookup "x-amz-iv" (take 2 toy_metadata) = None
  ∧ ∃ e, Email.decrypt_s3_email toy_library seven_bytes Email.empty_file (take 2 toy_metadata)
         = (Raise e, seven_bytes, Email.empty_file).
Proof.
  split; [reflexivity|].
  apply (decrypt_s3_email_missing_metadata toy_library seven_bytes Email.empty_file
           (take 2 toy_metadata) "x-amz-iv"); [|reflexivity].
  do 2 right. left.
Defined.

End MoreWitnesses.
